(** * Verification of scripts.js: search, highlighting, language sniffing,
      reading progress and clipboard fallback of the documentation page.

    JavaScript strings are modelled by [string], one 8-bit [ascii] per
    UTF-16 code unit: the strings covered are those whose code units lie
    in the Latin-1 range 0..255.  [String.length] is the JS [length]; the
    case mapping and the white space set are the Unicode ones on that
    range. *)

From Stdlib Require Import Ascii String QArith Qminmax DecimalString.
From stdpp Require Import base list gmap strings.

(** ** String primitives of the JavaScript runtime *)

Module JS.

(** The double quote character, and its one-character string. *)
Definition dquote : ascii := "034"%char.
Definition DQ : string := String dquote EmptyString.
Definition LF : string := String "010"%char EmptyString.

(** [String.prototype.includes]: some suffix of [s] starts with [sub]. *)
Fixpoint includes (s sub : string) : bool :=
  String.prefix sub s ||
  match s with
  | EmptyString => false
  | String _ s' => includes s' sub
  end.

(** The letters of the basic Latin alphabet. *)
Definition isUpper (c : ascii) : bool :=
  (Ascii.leb "A" c && Ascii.leb c "Z")%char.

Definition isLower (c : ascii) : bool :=
  (Ascii.leb "a" c && Ascii.leb c "z")%char.

(** The capital letters of the range: A-Z, U+00C0-U+00D6 and
    U+00D8-U+00DE (U+00D7 is the multiplication sign).  The small form of
    each lies 32 code units higher. *)
Definition hasSmallForm (c : ascii) : bool :=
  isUpper c ||
  (Ascii.leb "192" c && Ascii.leb c "214")%char ||
  (Ascii.leb "216" c && Ascii.leb c "222")%char.

(** The small letters whose capital lies in the range: a-z, U+00E0-U+00F6
    and U+00F8-U+00FE (U+00F7 is the division sign).  The capitals of
    U+00B5 and U+00FF lie outside the range and U+00DF has none of one
    code unit. *)
Definition hasCapitalForm (c : ascii) : bool :=
  isLower c ||
  (Ascii.leb "224" c && Ascii.leb c "246")%char ||
  (Ascii.leb "248" c && Ascii.leb c "254")%char.

Definition toLowerCaseChar (c : ascii) : ascii :=
  if hasSmallForm c then ascii_of_nat (nat_of_ascii c + 32) else c.

(** The capital of a character when that is a code unit of the range,
    the character itself otherwise.  This is the mapping the matcher
    needs for the flag [i]; [String.prototype.toUpperCase], which leaves
    the range at U+00B5, U+00DF and U+00FF, is not used by the script. *)
Definition toUpperCaseChar (c : ascii) : ascii :=
  if hasCapitalForm c then ascii_of_nat (nat_of_ascii c - 32) else c.

(** [String.prototype.toLowerCase] *)
Fixpoint toLowerCase (s : string) : string :=
  match s with
  | EmptyString => EmptyString
  | String c s' => String (toLowerCaseChar c) (toLowerCase s')
  end.

(** White space and line terminators in the sense of [trim]: TAB, LF,
    VT, FF, CR, space and the no-break space U+00A0. *)
Definition isWhiteSpace (c : ascii) : bool :=
  (Ascii.leb "009" c && Ascii.leb c "013")%char || Ascii.eqb c " " ||
  Ascii.eqb c "160".

Fixpoint trimStart (s : string) : string :=
  match s with
  | EmptyString => EmptyString
  | String c s' => if isWhiteSpace c then trimStart s' else s
  end.

(** [trimEnd] keeps a character when it is not white space or when
    something remains after it. *)
Fixpoint trimEnd (s : string) : string :=
  match s with
  | EmptyString => EmptyString
  | String c s' =>
      match trimEnd s' with
      | EmptyString => if isWhiteSpace c then EmptyString else String c EmptyString
      | t => String c t
      end
  end.

(** [String.prototype.trim] *)
Definition trim (s : string) : string := trimEnd (trimStart s).

(** [s.substring(0, n)] for [0 <= n]: the first [n] characters, or all
    of [s] when it is shorter. *)
Fixpoint substring0 (n : nat) (s : string) : string :=
  match n, s with
  | S n', String c s' => String c (substring0 n' s')
  | _, _ => EmptyString
  end.

(** [Array.prototype.join('')] on strings. *)
Fixpoint join (l : list string) : string :=
  match l with
  | [] => EmptyString
  | x :: l' => x +:+ join l'
  end.

Definition quoted (s : string) : string := DQ +:+ s +:+ DQ.

(** A line break followed by [n] spaces of indentation, as the template
    literals of the script contain them. *)
Fixpoint spaces (n : nat) : string :=
  match n with
  | 0 => EmptyString
  | S n' => String " " (spaces n')
  end.

Definition nl (n : nat) : string := LF +:+ spaces n.

(** Decimal rendering of a non-negative integer, as a template literal
    prints [results.length]. *)
Definition ofNat (n : nat) : string := NilEmpty.string_of_uint (Nat.to_uint n).

End JS.

(** ** Abrupt completions *)

Inductive Error :=
| SyntaxError (message : string)
| DOMException (message : string).

Inductive Completion (A : Type) :=
| Normal (a : A)
| Throw (e : Error).
Arguments Normal {A} a.
Arguments Throw {A} e.

#[global] Instance Completion_ret : MRet Completion := fun A a => Normal a.

#[global] Instance Completion_bind : MBind Completion := fun A B k c =>
  match c with
  | Normal a => k a
  | Throw e => Throw e
  end.

(** [Array.prototype.map] with a callback that may throw. *)
Fixpoint mapC {A B} (f : A -> Completion B) (l : list A) : Completion (list B) :=
  match l with
  | [] => Normal []
  | x :: l' => y ← f x; ys ← mapC f l'; Normal (y :: ys)
  end.

(** ** Regular expressions of the runtime

    [new RegExp(pattern, flags)] and [String.prototype.replace] for the
    pattern grammar without the compatibility extensions: alternation,
    capturing and non-capturing groups, the quantifiers [* + ? {n} {n,}
    {n,m}] and their lazy forms, [.], [^], [$], character classes with
    ranges, the class escapes [\d \D \w \W \s \S], the control escapes and
    identity escapes of non-alphanumeric characters.  A pattern outside
    this grammar (an unescaped brace or closing bracket, a look-ahead, a
    back reference) is reported as a [SyntaxError], so the constructor of
    the model accepts no pattern that the runtime rejects. *)

Module RegExp.

Inductive Node :=
| Empty
| Char (c : ascii)
| AnyChar
| CharClass (negated : bool) (ranges : list (ascii * ascii))
| AssertStart
| AssertEnd
| Group (index : nat) (body : Node)
| NonCapture (body : Node)
| Seq (a b : Node)
| Alt (a b : Node)
| Repeat (min : nat) (max : option nat) (greedy : bool) (body : Node).

(** *** Pattern parser: one left-to-right pass with a stack of open groups *)

Definition isSyntaxCharacter (c : ascii) : bool :=
  existsb (Ascii.eqb c) (list_ascii_of_string "^$\.*+?()[]{}|").

Definition isDigit (c : ascii) : bool := (Ascii.leb "0" c && Ascii.leb c "9")%char.

Definition digitValue (c : ascii) : nat := nat_of_ascii c - 48.

Definition isWordChar (c : ascii) : bool :=
  JS.isLower c || JS.isUpper c || isDigit c || Ascii.eqb c "_".

Definition digitRanges : list (ascii * ascii) := [("0", "9")]%char.
Definition notDigitRanges : list (ascii * ascii) :=
  [("000", "/"); (":", "255")]%char.
Definition wordRanges : list (ascii * ascii) :=
  [("a", "z"); ("A", "Z"); ("0", "9"); ("_", "_")]%char.
Definition notWordRanges : list (ascii * ascii) :=
  [("000", "/"); (":", "@"); ("[", "^"); ("`", "`"); ("{", "255")]%char.
Definition spaceRanges : list (ascii * ascii) :=
  [("009", "013"); (" ", " "); ("160", "160")]%char.
Definition notSpaceRanges : list (ascii * ascii) :=
  [("000", "008"); ("014", "031"); ("!", "159"); ("161", "255")]%char.

Definition classEscapeRanges (e : ascii) : option (list (ascii * ascii)) :=
  if Ascii.eqb e "d" then Some digitRanges
  else if Ascii.eqb e "D" then Some notDigitRanges
  else if Ascii.eqb e "w" then Some wordRanges
  else if Ascii.eqb e "W" then Some notWordRanges
  else if Ascii.eqb e "s" then Some spaceRanges
  else if Ascii.eqb e "S" then Some notSpaceRanges
  else None.

Definition controlEscape (e : ascii) : option ascii :=
  if Ascii.eqb e "t" then Some "009"%char
  else if Ascii.eqb e "n" then Some "010"%char
  else if Ascii.eqb e "v" then Some "011"%char
  else if Ascii.eqb e "f" then Some "012"%char
  else if Ascii.eqb e "r" then Some "013"%char
  else None.

Definition isIdentityEscape (e : ascii) : bool :=
  isSyntaxCharacter e || (Ascii.ltb e "128" && negb (isWordChar e)).

(** The atom denoted by [\e] outside a class. *)
Definition atomEscape (e : ascii) : option Node :=
  match classEscapeRanges e, controlEscape e with
  | Some rs, _ => Some (CharClass false rs)
  | None, Some c => Some (Char c)
  | None, None => if isIdentityEscape e then Some (Char e) else None
  end.

Inductive ClassAtom :=
| CAChar (c : ascii)
| CADash
| CASet (ranges : list (ascii * ascii)).

(** The class atom denoted by [\e] inside a class. *)
Definition classEscape (e : ascii) : option ClassAtom :=
  match classEscapeRanges e, controlEscape e with
  | Some rs, _ => Some (CASet rs)
  | None, Some c => Some (CAChar c)
  | None, None =>
      if Ascii.eqb e "b" then Some (CAChar "008"%char)
      else if isIdentityEscape e then Some (CAChar e) else None
  end.

(** Ranges of a class from its atoms in source order; [b-a] is an error. *)
Fixpoint buildRanges (atoms : list ClassAtom) : option (list (ascii * ascii)) :=
  match atoms with
  | [] => Some []
  | CAChar a :: CADash :: CAChar b :: rest =>
      if Ascii.leb a b then cons (a, b) <$> buildRanges rest else None
  | CAChar a :: rest => cons (a, a) <$> buildRanges rest
  | CADash :: rest => cons ("-", "-")%char <$> buildRanges rest
  | CASet rs :: rest => app rs <$> buildRanges rest
  end.

Inductive GroupKind := Capturing (index : nat) | NonCapturing.

(** An alternative list under construction: the finished alternatives
    and the terms of the current one, both most recent first. *)
Record Frame := { alts : list Node; terms : list Node }.

Definition emptyFrame : Frame := {| alts := []; terms := [] |}.

Record PState := {
  stack : list (GroupKind * Frame);   (* open groups, innermost first *)
  cur : Frame;
  ngroups : nat                       (* capturing groups opened so far *)
}.

Definition initial : PState := {| stack := []; cur := emptyFrame; ngroups := 0 |}.

Definition seqOf (ts : list Node) : Node :=
  foldl (fun acc t => Seq t acc) Empty ts.

Definition disjOf (f : Frame) : Node :=
  foldl (fun acc a => Alt a acc) (seqOf (terms f)) (alts f).

Definition pushTerm (t : Node) (st : PState) : PState :=
  {| stack := stack st;
     cur := {| alts := alts (cur st); terms := t :: terms (cur st) |};
     ngroups := ngroups st |}.

Definition nextAlt (st : PState) : PState :=
  {| stack := stack st;
     cur := {| alts := seqOf (terms (cur st)) :: alts (cur st); terms := [] |};
     ngroups := ngroups st |}.

Definition openCapturing (st : PState) : PState :=
  {| stack := (Capturing (S (ngroups st)), cur st) :: stack st;
     cur := emptyFrame;
     ngroups := S (ngroups st) |}.

Definition openNonCapturing (st : PState) : PState :=
  {| stack := (NonCapturing, cur st) :: stack st;
     cur := emptyFrame;
     ngroups := ngroups st |}.

Definition closeGroup (st : PState) : option PState :=
  match stack st with
  | [] => None
  | (kind, outer) :: stack' =>
      let g := match kind with
               | Capturing i => Group i (disjOf (cur st))
               | NonCapturing => NonCapture (disjOf (cur st))
               end in
      Some {| stack := stack';
              cur := {| alts := alts outer; terms := g :: terms outer |};
              ngroups := ngroups st |}
  end.

Definition quantifiable (n : Node) : bool :=
  match n with
  | Char _ | AnyChar | CharClass _ _ | Group _ _ | NonCapture _ => true
  | _ => false
  end.

(** A quantifier applies to the last term, which must be an atom. *)
Definition quantify (min : nat) (max : option nat) (greedy : bool)
    (st : PState) : option PState :=
  match terms (cur st) with
  | t :: ts =>
      if quantifiable t then
        Some {| stack := stack st;
                cur := {| alts := alts (cur st);
                          terms := Repeat min max greedy t :: ts |};
                ngroups := ngroups st |}
      else None
  | [] => None
  end.

Inductive Mode :=
| InPattern
| InBraceMin (lo : option nat)
| InBraceMax (lo : nat) (hi : option nat)
| InClass (negated : bool) (atoms : list ClassAtom).

Definition addDigit (n : option nat) (c : ascii) : nat :=
  match n with
  | Some k => 10 * k + digitValue c
  | None => digitValue c
  end.

Fixpoint parseFrom (mode : Mode) (st : PState) (p : string) : option Node :=
  match mode, p with
  | InPattern, EmptyString =>
      match stack st with
      | [] => Some (disjOf (cur st))
      | _ :: _ => None
      end
  | _, EmptyString => None
  | InPattern, String c rest =>
      if Ascii.eqb c "(" then
        match rest with
        | String "?" (String ":" rest') => parseFrom InPattern (openNonCapturing st) rest'
        | String "?" _ => None
        | _ => parseFrom InPattern (openCapturing st) rest
        end
      else if Ascii.eqb c ")" then
        match closeGroup st with
        | Some st' => parseFrom InPattern st' rest
        | None => None
        end
      else if Ascii.eqb c "|" then parseFrom InPattern (nextAlt st) rest
      else if Ascii.eqb c "*" || Ascii.eqb c "+" || Ascii.eqb c "?" then
        let min := if Ascii.eqb c "+" then 1 else 0 in
        let max := if Ascii.eqb c "?" then Some 1 else None in
        match rest with
        | String "?" rest' =>
            match quantify min max false st with
            | Some st' => parseFrom InPattern st' rest'
            | None => None
            end
        | _ =>
            match quantify min max true st with
            | Some st' => parseFrom InPattern st' rest
            | None => None
            end
        end
      else if Ascii.eqb c "{" then parseFrom (InBraceMin None) st rest
      else if Ascii.eqb c "}" || Ascii.eqb c "]" then None
      else if Ascii.eqb c "[" then
        match rest with
        | String "^" rest' => parseFrom (InClass true []) st rest'
        | _ => parseFrom (InClass false []) st rest
        end
      else if Ascii.eqb c "\" then
        match rest with
        | String e rest' =>
            match atomEscape e with
            | Some t => parseFrom InPattern (pushTerm t st) rest'
            | None => None
            end
        | EmptyString => None
        end
      else if Ascii.eqb c "." then parseFrom InPattern (pushTerm AnyChar st) rest
      else if Ascii.eqb c "^" then parseFrom InPattern (pushTerm AssertStart st) rest
      else if Ascii.eqb c "$" then parseFrom InPattern (pushTerm AssertEnd st) rest
      else parseFrom InPattern (pushTerm (Char c) st) rest
  | InBraceMin lo, String c rest =>
      if isDigit c then parseFrom (InBraceMin (Some (addDigit lo c))) st rest
      else match lo with
           | None => None
           | Some n =>
               if Ascii.eqb c "," then parseFrom (InBraceMax n None) st rest
               else if Ascii.eqb c "}" then
                 match rest with
                 | String "?" rest' =>
                     match quantify n (Some n) false st with
                     | Some st' => parseFrom InPattern st' rest'
                     | None => None
                     end
                 | _ =>
                     match quantify n (Some n) true st with
                     | Some st' => parseFrom InPattern st' rest
                     | None => None
                     end
                 end
               else None
           end
  | InBraceMax lo hi, String c rest =>
      if isDigit c then parseFrom (InBraceMax lo (Some (addDigit hi c))) st rest
      else if Ascii.eqb c "}" then
        if match hi with Some h => Nat.ltb h lo | None => false end then None
        else
          match rest with
          | String "?" rest' =>
              match quantify lo hi false st with
              | Some st' => parseFrom InPattern st' rest'
              | None => None
              end
          | _ =>
              match quantify lo hi true st with
              | Some st' => parseFrom InPattern st' rest
              | None => None
              end
          end
      else None
  | InClass neg atoms, String c rest =>
      if Ascii.eqb c "]" then
        match buildRanges (rev atoms) with
        | Some rs => parseFrom InPattern (pushTerm (CharClass neg rs) st) rest
        | None => None
        end
      else if Ascii.eqb c "\" then
        match rest with
        | String e rest' =>
            match classEscape e with
            | Some a => parseFrom (InClass neg (a :: atoms)) st rest'
            | None => None
            end
        | EmptyString => None
        end
      else if Ascii.eqb c "-" then parseFrom (InClass neg (CADash :: atoms)) st rest
      else parseFrom (InClass neg (CAChar c :: atoms)) st rest
  end.

Definition parse (pattern : string) : option Node :=
  parseFrom InPattern initial pattern.

Record Flags := { global : bool; ignoreCase : bool }.

(** The flags [g] and [i], each at most once. *)
Fixpoint parseFlags (f : string) (acc : Flags) : option Flags :=
  match f with
  | EmptyString => Some acc
  | String c f' =>
      if Ascii.eqb c "g" then
        if global acc then None
        else parseFlags f' {| global := true; ignoreCase := ignoreCase acc |}
      else if Ascii.eqb c "i" then
        if ignoreCase acc then None
        else parseFlags f' {| global := global acc; ignoreCase := true |}
      else None
  end.

Record RegExp := { source : Node; flags : Flags }.

(** [new RegExp(pattern, flags)] *)
Definition new (pattern flagString : string) : Completion RegExp :=
  match parseFlags flagString {| global := false; ignoreCase := false |} with
  | None => Throw (SyntaxError "Invalid flags supplied to RegExp constructor")
  | Some fl =>
      match parse pattern with
      | None => Throw (SyntaxError "Invalid regular expression")
      | Some n => Normal {| source := n; flags := fl |}
      end
  end.

(** *** Backtracking matcher *)

Record MState := {
  rest : string;                 (* input from the current position on *)
  pos : nat;                     (* index of the current position *)
  captures : gmap nat string     (* captured group index -> text *)
}.

(** [Canonicalize] of the matcher: with the flag [i] a character stands
    for its capital when that is a single code unit.  The capitals of
    U+00B5 and U+00FF are no code units of the range and belong to no
    other character of it, so these two stand for themselves here: two
    characters of the range have the same image exactly when the runtime
    gives them the same canonical form. *)
Definition canonicalize (ic : bool) (c : ascii) : ascii :=
  if ic then JS.toUpperCaseChar c else c.

Definition inRanges (c : ascii) (ranges : list (ascii * ascii)) : bool :=
  existsb (fun r => Ascii.leb (fst r) c && Ascii.leb c (snd r))%char ranges.

Definition classMatches (ic negated : bool) (ranges : list (ascii * ascii))
    (d : ascii) : bool :=
  xorb negated
    (if ic then inRanges (JS.toLowerCaseChar d) ranges ||
                inRanges (JS.toUpperCaseChar d) ranges
     else inRanges d ranges).

Definition isLineTerminator (c : ascii) : bool :=
  Ascii.eqb c "010" || Ascii.eqb c "013".

(** Consume one character satisfying [ok]. *)
Definition step (ok : ascii -> bool) (s : MState)
    (k : MState -> option MState) : option MState :=
  match rest s with
  | String d rest' =>
      if ok d then k {| rest := rest'; pos := S (pos s); captures := captures s |}
      else None
  | EmptyString => None
  end.

Fixpoint groupsOf (r : Node) : list nat :=
  match r with
  | Group i b => i :: groupsOf b
  | NonCapture b | Repeat _ _ _ b => groupsOf b
  | Seq a b | Alt a b => groupsOf a ++ groupsOf b
  | _ => []
  end.

Definition clearCaptures (gs : list nat) (s : MState) : MState :=
  {| rest := rest s; pos := pos s;
     captures := foldr (fun g m => delete g m) (captures s) gs |}.

Definition setCapture (i : nat) (from : MState) (s : MState) : MState :=
  {| rest := rest s; pos := pos s;
     captures := <[i := JS.substring0 (pos s - pos from) (rest from)]> (captures s) |}.

Definition orElse (a b : option MState) : option MState :=
  match a with
  | Some x => Some x
  | None => b
  end.

(** [run ic r s k]: match [r] at [s] and continue with [k]; the first
    success in priority order is returned.  An iteration of a quantifier
    that is not required and consumes nothing fails, which bounds the
    number of iterations by [min] plus the length of the input. *)
Fixpoint run (ic : bool) (r : Node) (s : MState)
    (k : MState -> option MState) {struct r} : option MState :=
  match r with
  | Empty => k s
  | Char c => step (fun d => Ascii.eqb (canonicalize ic c) (canonicalize ic d)) s k
  | AnyChar => step (fun d => negb (isLineTerminator d)) s k
  | CharClass neg ranges => step (classMatches ic neg ranges) s k
  | AssertStart => if Nat.eqb (pos s) 0 then k s else None
  | AssertEnd => match rest s with EmptyString => k s | _ => None end
  | Group i b => run ic b s (fun s' => k (setCapture i s s'))
  | NonCapture b => run ic b s k
  | Seq a b => run ic a s (fun s' => run ic b s' k)
  | Alt a b => orElse (run ic a s k) (run ic b s k)
  | Repeat min max greedy b =>
      (fix iterate (fuel min : nat) (max : option nat) (s : MState)
           (k : MState -> option MState) {struct fuel} : option MState :=
         match fuel with
         | 0 => None
         | S fuel' =>
             match max with
             | Some 0 => k s
             | _ =>
                 let again :=
                   run ic b (clearCaptures (groupsOf b) s)
                     (fun s' =>
                        if Nat.eqb min 0 && Nat.eqb (pos s') (pos s) then None
                        else iterate fuel' (Nat.pred min) (Nat.pred <$> max) s' k) in
                 if Nat.ltb 0 min then again
                 else if greedy then orElse again (k s)
                 else orElse (k s) again
             end
         end) (S (min + String.length (rest s))) min max s k
  end.

(** The match of a compiled [re] starting exactly at position [p], where
    the input continues with [s]: its length and captures. *)
Definition matchAt (re : RegExp) (p : nat) (s : string) : option (nat * gmap nat string) :=
  match run (ignoreCase (flags re)) (source re)
            {| rest := s; pos := p; captures := ∅ |} Some with
  | Some s' => Some (pos s' - p, captures s')
  | None => None
  end.

(** *** Compilation

    The constructor only parses.  The engine (V8, as in Chrome and
    Node.js) compiles an expression when it is first executed, and the
    compiled code addresses the characters of the text it is reading by
    an offset from the current position of at most [kMaxCPOffset]; an
    expression that needs a larger offset is refused with the
    [SyntaxError] "Regular expression too large".
    [textLength] counts the character positions of an expression.  For
    the expressions of this script, a character class and a group around
    [n] literal characters, it is the offset needed: the group compiles
    exactly when [n <= kMaxCPOffset].  Where the engine unrolls a
    quantifier it may need more than this count. *)

Definition kMaxCPOffset : nat := 2 ^ 15 - 1.

Fixpoint textLength (r : Node) : nat :=
  match r with
  | Char _ | AnyChar | CharClass _ _ => 1
  | Empty | AssertStart | AssertEnd => 0
  | Group _ b | NonCapture b | Repeat _ _ _ b => textLength b
  | Seq a b | Alt a b => textLength a + textLength b
  end.

Definition tooLarge : Error := SyntaxError "Regular expression too large".

Definition compile (re : RegExp) : Completion RegExp :=
  if Nat.ltb kMaxCPOffset (textLength (source re)) then Throw tooLarge
  else Normal re.

(** *** [String.prototype.replace] with a replacement template *)

Inductive ReplPart :=
| Lit (s : string)      (* literal text *)
| Matched               (* $& *)
| Capture (n : nat).    (* $n *)

Definition substitute (template : list ReplPart) (matched : string)
    (caps : gmap nat string) : string :=
  JS.join (map (fun part =>
                  match part with
                  | Lit s => s
                  | Matched => matched
                  | Capture n => default EmptyString (caps !! n)
                  end) template).

(** Left-to-right scan.  [skip] counts the characters still covered by
    the last match; [active] is false once a non-global expression has
    replaced its first match.  After an empty match the character at
    that position is copied and the scan moves on by one. *)
Fixpoint replaceFrom (re : RegExp) (template : list ReplPart) (active : bool)
    (skip p : nat) (s : string) : string :=
  match skip, s with
  | S skip', String _ s' => replaceFrom re template active skip' (S p) s'
  | S _, EmptyString => EmptyString
  | 0, _ =>
      match (if active then matchAt re p s else None), s with
      | Some (len, caps), String c s' =>
          substitute template (JS.substring0 len s) caps +:+
          match len with
          | 0 => String c (replaceFrom re template (global (flags re)) 0 (S p) s')
          | S len' => replaceFrom re template (global (flags re)) len' (S p) s'
          end
      | Some (len, caps), EmptyString => substitute template EmptyString caps
      | None, String c s' => String c (replaceFrom re template active 0 (S p) s')
      | None, EmptyString => EmptyString
      end
  end.

(** [s.replace(re, template)]: the expression is compiled before the
    scan starts, whatever [s] is. *)
Definition replace (re : RegExp) (template : list ReplPart) (s : string)
    : Completion string :=
  compiled ← compile re;
  Normal (replaceFrom compiled template true 0 0 s).

End RegExp.

(** ** The highlighter: [escapeRegExp] and [highlightText] *)

(** The literal [/[.*+?^${}()|[\]\\]/g]. *)
Definition escapePattern : RegExp.RegExp :=
  {| RegExp.source :=
       RegExp.Seq
         (RegExp.CharClass false
            [("."%char, "."%char); ("*"%char, "*"%char); ("+"%char, "+"%char);
             ("?"%char, "?"%char); ("^"%char, "^"%char); ("$"%char, "$"%char);
             ("{"%char, "{"%char); ("}"%char, "}"%char); ("("%char, "("%char);
             (")"%char, ")"%char); ("|"%char, "|"%char); ("["%char, "["%char);
             ("]"%char, "]"%char); ("\"%char, "\"%char)])
         RegExp.Empty;
     RegExp.flags := {| RegExp.global := true; RegExp.ignoreCase := false |} |}.

(** [string.replace(/[.*+?^${}()|[\]\\]/g, '\\$&')].  The literal is one
    character class and always compiles, so the call completes normally
    and its value is the result of the scan. *)
Definition escapeRegExp (s : string) : string :=
  RegExp.replaceFrom escapePattern [RegExp.Lit "\"; RegExp.Matched] true 0 0 s.

(** The replacement ['<span class="search-highlight">$1</span>']. *)
Definition highlightTemplate : list RegExp.ReplPart :=
  [RegExp.Lit ("<span class=" +:+ JS.DQ +:+ "search-highlight" +:+ JS.DQ +:+ ">");
   RegExp.Capture 1;
   RegExp.Lit "</span>"].

Definition highlightText (text query : string) : Completion string :=
  if String.eqb query EmptyString then Normal text
  else
    regex ← RegExp.new ("(" +:+ escapeRegExp query +:+ ")") "gi";
    RegExp.replace regex highlightTemplate text.

(** ** The document tree *)

Module Dom.

#[warning="-register-all"] Inductive Node :=
| TextNode (data : string)
| ElementNode (tagName : string) (id : string) (childNodes : list Node).

Fixpoint textContent (n : Node) : string :=
  match n with
  | TextNode d => d
  | ElementNode _ _ kids => JS.join (map textContent kids)
  end.

(** A reference to an element: its position below the searchable
    region (child indexes from the root) and the element found there.
    Two references are the same object when their positions agree. *)
Record Element := {
  path : list nat;
  tagName : string;
  id : string;
  childNodes : list Node
}.

Definition elementAt (p : list nat) (n : Node) : option Element :=
  match n with
  | TextNode _ => None
  | ElementNode t i kids => Some {| path := p; tagName := t; id := i; childNodes := kids |}
  end.

Definition textContentOf (e : Element) : string :=
  JS.join (map textContent (childNodes e)).

Definition same (a b : Element) : bool := bool_decide (path a = path b).

(** [e.matches('t1, t2, ...')] for a list of type selectors. *)
Definition matches (tags : list string) (e : Element) : bool :=
  existsb (String.eqb (tagName e)) tags.

(** The element children of a parent at [here], from child index [i]
    on, each followed by what [below] lists under it. *)
Definition childrenWith (below : list nat -> Node -> list Element)
    (here : list nat) : nat -> list Node -> list Element :=
  fix children (i : nat) (ks : list Node) : list Element :=
    match ks with
    | [] => []
    | k :: ks' =>
        option_list (elementAt (here ++ [i]) k) ++
        below (here ++ [i]) k ++ children (S i) ks'
    end.

(** The elements strictly below [n], in document order. *)
Fixpoint descendants (here : list nat) (n : Node) : list Element :=
  match n with
  | TextNode _ => []
  | ElementNode _ _ kids => childrenWith descendants here 0 kids
  end.

(** [root.querySelectorAll('t1, t2, ...')] *)
Definition querySelectorAll (root : Node) (tags : list string) : list Element :=
  filter (fun e => matches tags e = true) (descendants [] root).

(** The child at index [i] of a parent at [here] and its preceding
    element siblings, nearest first: the chain followed by
    [previousElementSibling]. *)
Definition siblingsBack (here : list nat) (kids : list Node) (i : nat) : list Element :=
  omap (fun x => x) (reverse (imap (fun j k => elementAt (here ++ [j]) k) (take (S i) kids))).

End Dom.

(** ** Search *)

Module Result.
Record t := {
  element : Dom.Element;
  heading : option Dom.Element;
  text : string;
  id : option string
}.
End Result.

Record Page := {
  searchInputValue : string;        (* searchInput.value *)
  mainContent : Dom.Node;           (* the .main-content element *)
  searchResultsInnerHTML : string   (* searchResults.innerHTML *)
}.

Definition withContent (content : Dom.Node) (pg : Page) : Page :=
  {| searchInputValue := searchInputValue pg;
     mainContent := content;
     searchResultsInnerHTML := searchResultsInnerHTML pg |}.

Definition setInnerHTML (html : string) (pg : Page) : Page :=
  {| searchInputValue := searchInputValue pg;
     mainContent := mainContent pg;
     searchResultsInnerHTML := html |}.

Definition isHeadingWithId (e : Dom.Element) : bool :=
  Dom.matches ["h2"; "h3"; "h4"] e && negb (String.eqb (Dom.id e) EmptyString).

(** The loop of [findParentHeading] visits the element, then its
    preceding element siblings, then its parent and the parent's
    preceding siblings, and so on until it reaches the root of the
    searchable region.  [climb n here p] is that walk for the element at
    [p] below [n]: the innermost level is tried first. *)
Fixpoint climb (n : Dom.Node) (here : list nat) (p : list nat) {struct p}
    : option Dom.Element :=
  match p, n with
  | i :: p', Dom.ElementNode _ _ kids =>
      match kids !! i with
      | Some child =>
          match climb child (here ++ [i]) p' with
          | Some h => Some h
          | None => find isHeadingWithId (Dom.siblingsBack here kids i)
          end
      | None => None
      end
  | _, _ => None
  end.

Definition findParentHeading (mainContent : Dom.Node) (element : Dom.Element)
    : option Dom.Element :=
  climb mainContent [] (Dom.path element).

(** The body of the [sections.forEach] callback of [performSearch]. *)
Definition scanSection (mainContent : Dom.Node) (query : string)
    (results : list Result.t) (section : Dom.Element) : list Result.t :=
  let text := JS.toLowerCase (Dom.textContentOf section) in
  let heading := findParentHeading mainContent section in
  if JS.includes text query then
    let result := {| Result.element := section;
                     Result.heading := heading;
                     Result.text := Dom.textContentOf section;
                     Result.id := Dom.id <$> heading |} in
    if existsb (fun r => Dom.same (Result.element r) section) results
    then results
    else results ++ [result]
  else results.

Definition clearSearchResults (pg : Page) : Page := setInnerHTML EmptyString pg.

(** The body of the [results.forEach] callback of [displaySearchResults],
    on the pair of [uniqueResults] and [seenHeadings]. *)
Definition dedupStep (acc : list Result.t * gset string) (result : Result.t)
    : list Result.t * gset string :=
  match Result.heading result with
  | Some h =>
      if decide (Dom.id h ∈ acc.2) then acc
      else (acc.1 ++ [result], {[Dom.id h]} ∪ acc.2)
  | None => acc
  end.

Definition uniqueResults (results : list Result.t) : list Result.t :=
  (foldl dedupStep ([], ∅) results).1.

Definition headingText (result : Result.t) : string :=
  match Result.heading result with
  | Some h => Dom.textContentOf h
  | None => "Content"
  end.

Definition snippet (result : Result.t) : string :=
  if Nat.ltb 100 (String.length (Result.text result))
  then JS.substring0 100 (Result.text result) +:+ "..."
  else Result.text result.

(** How a template literal prints [result.id]. *)
Definition idToString (i : option string) : string :=
  match i with
  | Some s => s
  | None => "null"
  end.

(** The callback of [uniqueResults.slice(0, 5).map]. *)
Definition renderResult (query : string) (result : Result.t) : Completion string :=
  h ← highlightText (headingText result) query;
  sn ← highlightText (snippet result) query;
  Normal (JS.nl 16 +:+ "<div class=" +:+ JS.quoted "search-result" +:+ ">" +:+
          JS.nl 20 +:+ "<a href=" +:+ JS.quoted ("#" +:+ idToString (Result.id result)) +:+ ">" +:+
          JS.nl 24 +:+ h +:+
          JS.nl 20 +:+ "</a>" +:+
          JS.nl 20 +:+ "<div>" +:+
          JS.nl 24 +:+ sn +:+
          JS.nl 20 +:+ "</div>" +:+
          JS.nl 16 +:+ "</div>" +:+
          JS.nl 12).

Definition noResultsHtml (query : string) : string :=
  "<div class=" +:+ JS.quoted "search-no-results" +:+ ">No results found for " +:+
  JS.quoted query +:+ "</div>".

Definition totalResults (n : nat) : string :=
  if Nat.ltb 5 n then " (showing 5 of " +:+ JS.ofNat n +:+ ")" else EmptyString.

Definition headerHtml (n : nat) : string :=
  JS.nl 12 +:+ "<div class=" +:+ JS.quoted "search-results-header" +:+ ">" +:+
  JS.nl 16 +:+ "Found " +:+ JS.ofNat n +:+ " result" +:+
    (if negb (Nat.eqb n 1) then "s" else EmptyString) +:+ totalResults n +:+
  JS.nl 12 +:+ "</div>".

(** The records handed to the renderer: [uniqueResults.slice(0, 5)]. *)
Definition displayed (results : list Result.t) : list Result.t :=
  take 5 (uniqueResults results).

(** [displaySearchResults]: the markup assigned to [searchResults.innerHTML]. *)
Definition displaySearchResults (results : list Result.t) (query : string)
    (pg : Page) : Completion Page :=
  if Nat.eqb (length results) 0 then
    Normal (setInnerHTML (noResultsHtml query) pg)
  else
    entries ← mapC (renderResult query) (displayed results);
    let resultsHtml := JS.join entries in
    Normal (setInnerHTML (headerHtml (length results) +:+
                          JS.nl 12 +:+ resultsHtml +:+ JS.nl 8) pg).

Definition searchableTags : list string := ["h2"; "h3"; "h4"; "p"; "li"; "code"; "pre"].

Definition normalizedQuery (pg : Page) : string :=
  JS.trim (JS.toLowerCase (searchInputValue pg)).

(** The match list built by [performSearch], or [None] when the query is
    too short and the function returns before scanning. *)
Definition collectResults (pg : Page) : option (list Result.t) :=
  let query := normalizedQuery pg in
  if Nat.ltb (String.length query) 2 then None
  else
    let sections := Dom.querySelectorAll (mainContent pg) searchableTags in
    Some (foldl (scanSection (mainContent pg) query) [] sections).

Definition performSearch (pg : Page) : Completion Page :=
  match collectResults pg with
  | None => Normal (clearSearchResults pg)
  | Some results => displaySearchResults results (normalizedQuery pg) pg
  end.

(** ** Markup assigned to [innerHTML]

    The part of the HTML tokenizer that decides which elements a markup
    string creates: in character data a [<] followed by a letter opens a
    start tag whose name runs up to white space, [/] or [>]; the tag ends
    at the next [>] outside a quoted attribute value. *)

Module Html.

Inductive State :=
| Data
| TagName (name : string)            (* reading a start tag name *)
| InTag (quote : option ascii).      (* inside a tag, maybe inside a quoted value *)

Definition isLetter (c : ascii) : bool := JS.isLower c || JS.isUpper c.

(** The characters that end a tag name besides [/] and [>]: TAB, LF, FF,
    CR and space. *)
Definition isSpace (c : ascii) : bool :=
  Ascii.eqb c "009" || Ascii.eqb c "010" || Ascii.eqb c "012" ||
  Ascii.eqb c "013" || Ascii.eqb c " ".

(** Tag names are lower-cased in the basic Latin alphabet only. *)
Definition asciiLower (c : ascii) : ascii :=
  if JS.isUpper c then ascii_of_nat (nat_of_ascii c + 32) else c.

Fixpoint scan (st : State) (s : string) : list string :=
  match s with
  | EmptyString =>
      match st with
      | TagName name => [name]
      | _ => []
      end
  | String c s' =>
      match st with
      | Data =>
          if Ascii.eqb c "<" then
            match s' with
            | String d _ => if isLetter d then scan (TagName EmptyString) s'
                            else if Ascii.eqb d "/" then scan (InTag None) s'
                            else scan Data s'
            | EmptyString => []
            end
          else scan Data s'
      | TagName name =>
          if Ascii.eqb c ">" then name :: scan Data s'
          else if isSpace c || Ascii.eqb c "/" then name :: scan (InTag None) s'
          else scan (TagName (name +:+ String (asciiLower c) EmptyString)) s'
      | InTag None =>
          if Ascii.eqb c ">" then scan Data s'
          else if Ascii.eqb c JS.dquote || Ascii.eqb c "'" then scan (InTag (Some c)) s'
          else scan (InTag None) s'
      | InTag (Some q) =>
          if Ascii.eqb c q then scan (InTag None) s' else scan (InTag (Some q)) s'
      end
  end.

(** The names of the elements created by parsing [html]. *)
Definition startTags (html : string) : list string := scan Data html.

(** The markup that stands for a text node holding [s]. *)
Fixpoint escapeText (s : string) : string :=
  match s with
  | EmptyString => EmptyString
  | String c s' =>
      (if Ascii.eqb c "<" then "&lt;"
       else if Ascii.eqb c ">" then "&gt;"
       else if Ascii.eqb c "&" then "&amp;"
       else String c EmptyString) +:+ escapeText s'
  end.

End Html.

(** ** Clipboard fallback *)

Module Clipboard.

Record Button := { textContent : string; classList : list string }.

Definition classAdd (c : string) (b : Button) : Button :=
  {| textContent := textContent b;
     classList := if bool_decide (c ∈ classList b) then classList b
                  else classList b ++ [c] |}.

Definition classRemove (c : string) (b : Button) : Button :=
  {| textContent := textContent b;
     classList := filter (fun x => x ≠ c) (classList b) |}.

Definition setText (t : string) (b : Button) : Button :=
  {| textContent := t; classList := classList b |}.

Record TextArea := { value : string; position : string; left : string; top : string }.

(** The callbacks handed to [setTimeout]. *)
Inductive Callback :=
| ResetCopied
| ResetError.

Record World := {
  body : list TextArea;             (* children appended to document.body *)
  focused : option nat;             (* index in [body] of the focused child *)
  selection : option string;        (* the selected text *)
  button : Button;                  (* the copy button *)
  timers : list (nat * Callback);   (* pending timeouts: delay and callback *)
  console : list string             (* messages of console.error *)
}.

Definition withButton (f : Button -> Button) (w : World) : World :=
  {| body := body w; focused := focused w; selection := selection w;
     button := f (button w); timers := timers w; console := console w |}.

Definition setTimeout (cb : Callback) (delay : nat) (w : World) : World :=
  {| body := body w; focused := focused w; selection := selection w;
     button := button w; timers := timers w ++ [(delay, cb)]; console := console w |}.

Definition consoleError (msg : string) (w : World) : World :=
  {| body := body w; focused := focused w; selection := selection w;
     button := button w; timers := timers w; console := console w ++ [msg] |}.

(** [document.body.appendChild(textArea); textArea.focus(); textArea.select()] *)
Definition appendAndSelect (ta : TextArea) (w : World) : World :=
  {| body := body w ++ [ta]; focused := Some (length (body w));
     selection := Some (value ta);
     button := button w; timers := timers w; console := console w |}.

(** [document.body.removeChild] of the child at index [i]. *)
Definition removeChild (i : nat) (w : World) : World :=
  {| body := delete i (body w);
     focused := if bool_decide (focused w = Some i) then None else focused w;
     selection := if bool_decide (focused w = Some i) then None else selection w;
     button := button w; timers := timers w; console := console w |}.

(** What [document.execCommand('copy')] does in the environment. *)
Inductive ExecCommand :=
| Returns (ok : bool)
| Throws (err : string).

Definition showCopySuccess (w : World) : World :=
  setTimeout ResetCopied 2000
    (withButton (classAdd "copied") (withButton (setText "Copied!") w)).

Definition showCopyFailure (err : string) (w : World) : World :=
  setTimeout ResetError 2000
    (withButton (classAdd "error")
       (withButton (setText "Failed")
          (consoleError ("Failed to copy text: " +:+ err) w))).

Definition fallbackCopyToClipboard (text : string) (exec : ExecCommand)
    (w : World) : World :=
  let textArea := {| value := text; position := "fixed";
                     left := "-999999px"; top := "-999999px" |} in
  let i := length (body w) in
  let w1 := appendAndSelect textArea w in
  let w2 := match exec with
            | Returns _ => showCopySuccess w1
            | Throws err => showCopyFailure err w1
            end in
  removeChild i w2.

(** Running a timeout callback. *)
Definition fire (cb : Callback) (w : World) : World :=
  match cb with
  | ResetCopied => withButton (classRemove "copied") (withButton (setText "Copy") w)
  | ResetError => withButton (classRemove "error") (withButton (setText "Copy") w)
  end.

(** The feedback a user reads off the button. *)
Inductive Feedback := Copied | Failed | Idle.

Definition feedback (w : World) : Feedback :=
  if String.eqb (textContent (button w)) "Copied!" then Copied
  else if String.eqb (textContent (button w)) "Failed" then Failed
  else Idle.

End Clipboard.

(** ** Reading progress

    Numbers are the extended rationals: the finite values are exact
    (rounding is not modelled), division by zero and the operations on
    infinities and NaN follow the language. *)

Module Number.

Inductive t :=
| NaN
| Infinity (negative : bool)
| Finite (q : Q).

Definition isZero (q : Q) : bool := Qeq_bool q 0.
Definition isNeg (q : Q) : bool := negb (Qle_bool 0 q).

(** [ToBoolean]: zero and NaN are falsy. *)
Definition truthy (x : t) : bool :=
  match x with
  | NaN => false
  | Infinity _ => true
  | Finite q => negb (isZero q)
  end.

(** [a || b] *)
Definition or (a b : t) : t := if truthy a then a else b.

Definition sub (a b : t) : t :=
  match a, b with
  | NaN, _ | _, NaN => NaN
  | Infinity sa, Infinity sb => if Bool.eqb sa sb then NaN else Infinity sa
  | Infinity sa, Finite _ => Infinity sa
  | Finite _, Infinity sb => Infinity (negb sb)
  | Finite x, Finite y => Finite (x - y)
  end.

Definition mul (a b : t) : t :=
  match a, b with
  | NaN, _ | _, NaN => NaN
  | Infinity sa, Infinity sb => Infinity (xorb sa sb)
  | Infinity sa, Finite y => if isZero y then NaN else Infinity (xorb sa (isNeg y))
  | Finite x, Infinity sb => if isZero x then NaN else Infinity (xorb (isNeg x) sb)
  | Finite x, Finite y => Finite (x * y)
  end.

Definition div (a b : t) : t :=
  match a, b with
  | NaN, _ | _, NaN => NaN
  | Infinity _, Infinity _ => NaN
  | Infinity sa, Finite y => Infinity (xorb sa (isNeg y))
  | Finite _, Infinity _ => Finite 0
  | Finite x, Finite y =>
      if isZero y then (if isZero x then NaN else Infinity (isNeg x))
      else Finite (x / y)
  end.

(** [Math.min] *)
Definition min (a b : t) : t :=
  match a, b with
  | NaN, _ | _, NaN => NaN
  | Infinity true, _ | _, Infinity true => Infinity true
  | Infinity false, y => y
  | x, Infinity false => x
  | Finite x, Finite y => if Qle_bool x y then Finite x else Finite y
  end.

End Number.

Record ScrollMetrics := {
  bodyScrollTop : Number.t;        (* document.body.scrollTop *)
  rootScrollTop : Number.t;        (* document.documentElement.scrollTop *)
  scrollHeight : Number.t;         (* document.documentElement.scrollHeight *)
  clientHeight : Number.t          (* document.documentElement.clientHeight *)
}.

(** The value written to [progressBar.style.width]: a number followed by
    the percent sign. *)
Inductive Width := Percent (n : Number.t).

Definition updateReadingProgress (m : ScrollMetrics) : Width :=
  let winScroll := Number.or (bodyScrollTop m) (rootScrollTop m) in
  let height := Number.sub (scrollHeight m) (clientHeight m) in
  let scrolled := Number.mul (Number.div winScroll height) (Number.Finite 100) in
  Percent (Number.min scrolled (Number.Finite 100)).

(** The scroll state of the specification: an offset and a scrollable
    height, both finite; the offset is read from the root element and the
    client height is taken as zero. *)
Definition scrollState (offset totalScrollable : Q) : ScrollMetrics :=
  {| bodyScrollTop := Number.Finite 0;
     rootScrollTop := Number.Finite offset;
     scrollHeight := Number.Finite totalScrollable;
     clientHeight := Number.Finite 0 |}.

(** ** Language sniffing: [detectLanguage] *)

Definition detectLanguage (code : string) : string :=
  if JS.includes code "#!/bin/bash" || JS.includes code "echo " ||
     JS.includes code "mkdir " || JS.includes code "cd " ||
     JS.includes code "ls " || JS.includes code "git " ||
     JS.includes code "claude "
  then "bash"
  else if JS.includes code "{" && JS.includes code "}" &&
          (JS.includes code (JS.DQ +:+ "hooks" +:+ JS.DQ) ||
           JS.includes code (JS.DQ +:+ "PreToolUse" +:+ JS.DQ) ||
           JS.includes code (JS.DQ +:+ "matcher" +:+ JS.DQ))
  then "json"
  else if JS.includes code ("---" +:+ JS.LF +:+ "name:") ||
          JS.includes code "description:"
  then "markdown"
  else if JS.includes code "function" || JS.includes code "const " ||
          JS.includes code "let "
  then "javascript"
  else if JS.includes code "def " || JS.includes code "import " ||
          JS.includes code "python"
  then "python"
  else "bash".

(** The rule table as the specification words it: an ordered list of
    rules, the first matching one deciding, with the shell language as
    the default. *)
Module Sniff.

Inductive Rule :=
| ShellMarkers
| JsonShape
| MarkdownFrontmatter
| GenericKeywords
| ScriptingKeywords.

Definition any (code : string) (pats : list string) : bool :=
  existsb (JS.includes code) pats.

Definition matches (r : Rule) (code : string) : bool :=
  match r with
  | ShellMarkers =>
      any code ["#!/bin/bash"; "echo "; "mkdir "; "cd "; "ls "; "git "; "claude "]
  | JsonShape =>
      JS.includes code "{" && JS.includes code "}" &&
      any code [JS.DQ +:+ "hooks" +:+ JS.DQ;
                JS.DQ +:+ "PreToolUse" +:+ JS.DQ;
                JS.DQ +:+ "matcher" +:+ JS.DQ]
  | MarkdownFrontmatter =>
      any code ["---" +:+ JS.LF +:+ "name:"; "description:"]
  | GenericKeywords => any code ["function"; "const "; "let "]
  | ScriptingKeywords => any code ["def "; "import "; "python"]
  end.

Definition language (r : Rule) : string :=
  match r with
  | ShellMarkers => "bash"
  | JsonShape => "json"
  | MarkdownFrontmatter => "markdown"
  | GenericKeywords => "javascript"
  | ScriptingKeywords => "python"
  end.

Definition priority : list Rule :=
  [ShellMarkers; JsonShape; MarkdownFrontmatter; GenericKeywords; ScriptingKeywords].

Fixpoint firstMatch (rules : list Rule) (code : string) : option Rule :=
  match rules with
  | [] => None
  | r :: rules' => if matches r code then Some r else firstMatch rules' code
  end.

Definition sniff (code : string) : string :=
  match firstMatch priority code with
  | Some r => language r
  | None => "bash"
  end.

Definition echoHooks : string :=
  "echo '{" +:+ JS.DQ +:+ "hooks" +:+ JS.DQ +:+ ": {}}'".

End Sniff.

(** ** Copy to clipboard: the asynchronous interface first *)

Module Copy.

(** How the promise of [navigator.clipboard.writeText] settles. *)
Inductive WriteText := Resolves | Rejects.

Record Env := {
  clipboard : option WriteText;      (* navigator.clipboard, when present *)
  isSecureContext : bool;            (* window.isSecureContext *)
  exec : Clipboard.ExecCommand       (* document.execCommand('copy') *)
}.

(** The state once the promise has settled and its handlers have run. *)
Definition copyToClipboard (text : string) (env : Env) (w : Clipboard.World)
    : Clipboard.World :=
  match clipboard env with
  | Some outcome =>
      if isSecureContext env then
        match outcome with
        | Resolves => Clipboard.showCopySuccess w
        | Rejects => Clipboard.fallbackCopyToClipboard text (exec env) w
        end
      else Clipboard.fallbackCopyToClipboard text (exec env) w
  | None => Clipboard.fallbackCopyToClipboard text (exec env) w
  end.

(** A pending timeout fires: it leaves the queue and its callback runs. *)
Definition fireTimer (i : nat) (w : Clipboard.World) : Clipboard.World :=
  match Clipboard.timers w !! i with
  | Some (_, cb) =>
      Clipboard.fire cb
        {| Clipboard.body := Clipboard.body w; Clipboard.focused := Clipboard.focused w;
           Clipboard.selection := Clipboard.selection w; Clipboard.button := Clipboard.button w;
           Clipboard.timers := delete i (Clipboard.timers w);
           Clipboard.console := Clipboard.console w |}
  | None => w
  end.

End Copy.

(** ** Debounced search input *)

Module Debounce.

Record State := {
  page : Page;
  searchTimeout : option nat;      (* the handle kept in [searchTimeout] *)
  nextHandle : nat;                (* the handle the next [setTimeout] returns *)
  pending : list (nat * nat)       (* pending timeouts of [performSearch]: handle, delay *)
}.

Definition initial (pg : Page) : State :=
  {| page := pg; searchTimeout := None; nextHandle := 1; pending := [] |}.

(** [clearTimeout(handle)]: an unknown or undefined handle is ignored. *)
Definition clearTimeout (h : option nat) (q : list (nat * nat)) : list (nat * nat) :=
  match h with
  | Some i => filter (fun t => t.1 ≠ i) q
  | None => q
  end.

Inductive Event :=
| Input (value : string)      (* the user edits the search box *)
| TimerFires (handle : nat).  (* a pending timeout comes due *)

Definition setValue (v : string) (pg : Page) : Page :=
  {| searchInputValue := v; mainContent := mainContent pg;
     searchResultsInnerHTML := searchResultsInnerHTML pg |}.

(** The [input] listener: cancel the pending search and schedule a new one. *)
Definition onInput (st : State) : State :=
  {| page := page st;
     searchTimeout := Some (nextHandle st);
     nextHandle := S (nextHandle st);
     pending := clearTimeout (searchTimeout st) (pending st) ++ [(nextHandle st, 300)] |}.

(** One turn of the event loop.  An exception thrown by a timeout
    callback is reported and goes no further: the timeout is spent, and
    since [performSearch] assigns [innerHTML] as its last action the page
    is then the one before the call. *)
Definition step (st : State) (e : Event) : Completion State :=
  match e with
  | Input v =>
      Normal (onInput {| page := setValue v (page st); searchTimeout := searchTimeout st;
                         nextHandle := nextHandle st; pending := pending st |})
  | TimerFires h =>
      if bool_decide (h ∈ (pending st).*1) then
        Normal {| page := match performSearch (page st) with
                          | Normal pg => pg
                          | Throw _ => page st
                          end;
                  searchTimeout := searchTimeout st;
                  nextHandle := nextHandle st;
                  pending := filter (fun t => t.1 ≠ h) (pending st) |}
      else Normal st
  end.

Fixpoint run (st : State) (events : list Event) : Completion State :=
  match events with
  | [] => Normal st
  | e :: events' => st' ← step st e; run st' events'
  end.

End Debounce.

(** ** Feedback dialog *)

Module Feedback.

(** The callbacks handed to [setTimeout]. *)
Inductive Callback :=
| FocusFirstInput
| ResetForm
| FinishSubmit (originalText : string) (data : list (string * string)).

Record Modal := {
  active : bool;                         (* feedbackModal has the class active *)
  overflow : string;                     (* document.body.style.overflow *)
  formDisplay : string;                  (* feedbackForm.style.display *)
  successDisplay : string;               (* feedbackSuccess.style.display *)
  fields : list (string * string);       (* what the form holds *)
  submitText : string;                   (* label of the submit button *)
  submitDisabled : bool;
  firstInputFocused : bool;
  timers : list (nat * Callback);        (* pending timeouts: delay and callback *)
  console : list (list (string * string))  (* console.log of submitted data *)
}.

Definition initial (label : string) : Modal :=
  {| active := false; overflow := EmptyString; formDisplay := EmptyString;
     successDisplay := EmptyString; fields := []; submitText := label;
     submitDisabled := false; firstInputFocused := false; timers := [];
     console := [] |}.

Definition schedule (delay : nat) (cb : Callback) (m : Modal) : Modal :=
  {| active := active m; overflow := overflow m; formDisplay := formDisplay m;
     successDisplay := successDisplay m; fields := fields m; submitText := submitText m;
     submitDisabled := submitDisabled m; firstInputFocused := firstInputFocused m;
     timers := timers m ++ [(delay, cb)]; console := console m |}.

(** The click listener of the feedback button. *)
Definition openModal (m : Modal) : Modal :=
  schedule 100 FocusFirstInput
    {| active := true; overflow := "hidden"; formDisplay := formDisplay m;
       successDisplay := successDisplay m; fields := fields m; submitText := submitText m;
       submitDisabled := submitDisabled m; firstInputFocused := firstInputFocused m;
       timers := timers m; console := console m |}.

Definition closeFeedbackModal (m : Modal) : Modal :=
  schedule 300 ResetForm
    {| active := false; overflow := EmptyString; formDisplay := formDisplay m;
       successDisplay := successDisplay m; fields := fields m; submitText := submitText m;
       submitDisabled := submitDisabled m; firstInputFocused := firstInputFocused m;
       timers := timers m; console := console m |}.

(** The submit listener. *)
Definition submit (m : Modal) : Modal :=
  schedule 1000 (FinishSubmit (submitText m) (fields m))
    {| active := active m; overflow := overflow m; formDisplay := formDisplay m;
       successDisplay := successDisplay m; fields := fields m; submitText := "Sending...";
       submitDisabled := true; firstInputFocused := firstInputFocused m;
       timers := timers m; console := console m |}.

Definition runCallback (cb : Callback) (m : Modal) : Modal :=
  match cb with
  | FocusFirstInput =>
      {| active := active m; overflow := overflow m; formDisplay := formDisplay m;
         successDisplay := successDisplay m; fields := fields m; submitText := submitText m;
         submitDisabled := submitDisabled m; firstInputFocused := true;
         timers := timers m; console := console m |}
  | ResetForm =>
      {| active := active m; overflow := overflow m; formDisplay := "block";
         successDisplay := "none"; fields := []; submitText := submitText m;
         submitDisabled := submitDisabled m; firstInputFocused := firstInputFocused m;
         timers := timers m; console := console m |}
  | FinishSubmit originalText data =>
      {| active := active m; overflow := overflow m; formDisplay := "none";
         successDisplay := "block"; fields := fields m; submitText := originalText;
         submitDisabled := false; firstInputFocused := firstInputFocused m;
         timers := timers m; console := console m ++ [data] |}
  end.

Inductive Event :=
| ClickFeedbackBtn
| ClickClose
| ClickCancel
| ClickCloseSuccess
| ClickInModal (onBackdrop : bool)   (* whether the target is the modal itself *)
| SubmitForm
| Edit (name value : string)         (* the user fills in a field *)
| KeyDown (key : string)
| TimerFires (i : nat).              (* the pending timeout at position [i] comes due *)

Definition step (m : Modal) (e : Event) : Modal :=
  match e with
  | ClickFeedbackBtn => openModal m
  | ClickClose | ClickCancel | ClickCloseSuccess => closeFeedbackModal m
  | ClickInModal onBackdrop => if onBackdrop then closeFeedbackModal m else m
  | SubmitForm => submit m
  | Edit name value =>
      {| active := active m; overflow := overflow m; formDisplay := formDisplay m;
         successDisplay := successDisplay m; fields := fields m ++ [(name, value)];
         submitText := submitText m; submitDisabled := submitDisabled m;
         firstInputFocused := firstInputFocused m; timers := timers m;
         console := console m |}
  | KeyDown key =>
      if String.eqb key "Escape" && active m then closeFeedbackModal m else m
  | TimerFires i =>
      match timers m !! i with
      | Some (_, cb) =>
          runCallback cb
            {| active := active m; overflow := overflow m; formDisplay := formDisplay m;
               successDisplay := successDisplay m; fields := fields m;
               submitText := submitText m; submitDisabled := submitDisabled m;
               firstInputFocused := firstInputFocused m; timers := delete i (timers m);
               console := console m |}
      | None => m
      end
  end.

Definition run (m : Modal) (events : list Event) : Modal := foldl step m events.

End Feedback.

(** * Definitions used to state the properties *)

(** What [escapeRegExp] computes, character by character: a backslash
    before each syntax character, every other character unchanged. *)
Fixpoint escapeChars (s : string) : string :=
  match s with
  | EmptyString => EmptyString
  | String c s' =>
      if RegExp.isSyntaxCharacter c then String "\" (String c (escapeChars s'))
      else String c (escapeChars s')
  end.

(** The characters listed for escaping. *)
Definition metacharacters : list ascii := list_ascii_of_string ".*+?^${}()|[]\".

(** The parser state after reading the characters of [q] as literals. *)
Fixpoint pushChars (q : string) (st : RegExp.PState) : RegExp.PState :=
  match q with
  | EmptyString => st
  | String c q' => pushChars q' (RegExp.pushTerm (RegExp.Char c) st)
  end.

(** The syntax tree of [(] escaped query [)]. *)
Definition groupOf (q : string) : RegExp.Node :=
  RegExp.Seq
    (RegExp.Group 1
       (RegExp.disjOf (RegExp.cur (pushChars q (RegExp.openCapturing RegExp.initial)))))
    RegExp.Empty.

(** [occurs c s]: the character [c] appears in [s]. *)
Fixpoint occurs (c : ascii) (s : string) : bool :=
  match s with
  | EmptyString => false
  | String d s' => Ascii.eqb c d || occurs c s'
  end.

(** [uniqueResults] as a recursion over the match list: the records kept
    when the ids in [seen] have been taken already. *)
Fixpoint dedupFrom (seen : gset string) (results : list Result.t) : list Result.t :=
  match results with
  | [] => []
  | r :: rs =>
      match Result.heading r with
      | Some h =>
          if decide (Dom.id h ∈ seen) then dedupFrom seen rs
          else r :: dedupFrom ({[Dom.id h]} ∪ seen) rs
      | None => dedupFrom seen rs
      end
  end.

(** The section id under which a kept record is filed. *)
Definition sectionKey (r : Result.t) : option string := Dom.id <$> Result.heading r.

(** Whether the scan of [performSearch] finds [query] in a section. *)
Definition hit (query : string) (section : Dom.Element) : bool :=
  JS.includes (JS.toLowerCase (Dom.textContentOf section)) query.

(** The markup of a non-empty result list: header, then the entries. *)
Definition resultsMarkup (n : nat) (entries : list string) : string :=
  headerHtml n +:+ JS.nl 12 +:+ JS.join entries +:+ JS.nl 8.

(** The node reached from [n] along the child indexes [p]. *)
Fixpoint resolve (n : Dom.Node) (p : list nat) : option Dom.Node :=
  match p, n with
  | [], _ => Some n
  | i :: p', Dom.ElementNode _ _ kids =>
      match kids !! i with
      | Some k => resolve k p'
      | None => None
      end
  | _ :: _, Dom.TextNode _ => None
  end.

(** The syntax tree of a query read as literal characters. *)
Fixpoint literal (q : string) : RegExp.Node :=
  match q with
  | EmptyString => RegExp.Empty
  | String c q' => RegExp.Seq (RegExp.Char c) (literal q')
  end.

(** [ciPrefix q s]: [s] starts with [q] up to the case of letters. *)
Fixpoint ciPrefix (q s : string) : bool :=
  match q, s with
  | EmptyString, _ => true
  | String c q', String d s' =>
      Ascii.eqb (JS.toUpperCaseChar c) (JS.toUpperCaseChar d) && ciPrefix q' s'
  | String _ _, EmptyString => false
  end.

(** [s] without its first [n] characters. *)
Fixpoint dropStr (n : nat) (s : string) : string :=
  match n, s with
  | S n', String _ s' => dropStr n' s'
  | _, _ => s
  end.

(** The matcher state [n] characters further on. *)
Definition advance (n : nat) (st : RegExp.MState) : RegExp.MState :=
  {| RegExp.rest := dropStr n (RegExp.rest st);
     RegExp.pos := n + RegExp.pos st;
     RegExp.captures := RegExp.captures st |}.




(** The expression [highlightText] builds for the query [q]. *)
Definition queryRegExp (q : string) : RegExp.RegExp :=
  {| RegExp.source := groupOf q;
     RegExp.flags := {| RegExp.global := true; RegExp.ignoreCase := true |} |}.


(** The scroll offset [updateReadingProgress] reads: that of the body
    unless it is zero, then that of the root element. *)
Definition winScroll (body root : Q) : Q :=
  if Number.isZero body then root else body.

Definition metrics (body root scrollHeight clientHeight : Q) : ScrollMetrics :=
  {| bodyScrollTop := Number.Finite body;
     rootScrollTop := Number.Finite root;
     scrollHeight := Number.Finite scrollHeight;
     clientHeight := Number.Finite clientHeight |}.

(** The record [performSearch] builds for a matching section. *)
Definition recordOf (mainContent : Dom.Node) (section : Dom.Element) : Result.t :=
  {| Result.element := section;
     Result.heading := findParentHeading mainContent section;
     Result.text := Dom.textContentOf section;
     Result.id := Dom.id <$> findParentHeading mainContent section |}.

(** The state of the debounced input is in order: at most one pending
    search, known to [searchTimeout], due after 300 ms. *)
Definition debounced (st : Debounce.State) : Prop :=
  length (Debounce.pending st) <= 1 /\
  forall h d, (h, d) ∈ Debounce.pending st ->
              Debounce.searchTimeout st = Some h /\ d = 300.

(** The scroll lock of the page follows the dialog. *)
Definition scrollLockInSync (m : Feedback.Modal) : Prop :=
  (Feedback.active m = true /\ Feedback.overflow m = "hidden") \/
  (Feedback.active m = false /\ Feedback.overflow m = EmptyString).

(** Whether [copyToClipboard] ends up on the fallback path. *)
Definition fallbackTaken (env : Copy.Env) : bool :=
  match Copy.clipboard env with
  | Some Copy.Resolves => negb (Copy.isSecureContext env)
  | _ => true
  end.

(** ** The loop of [findParentHeading], step by step

    A position is the list of child indexes from an element up to the
    root of the searchable region, innermost first; the empty list is the
    region itself ([mainContent]).  [findParentHeadingLoop] is the [while]
    loop with a bound on the number of iterations: [None] when the bound
    is reached, [Some r] when the loop returns [r]. *)

Module Locator.

Definition childNodesAt (root : Dom.Node) (p : list nat) : option (list Dom.Node) :=
  match resolve root p with
  | Some (Dom.ElementNode _ _ kids) => Some kids
  | _ => None
  end.

(** The element at a position, or nothing ([null]). *)
Definition elementOf (root : Dom.Node) (current : list nat) : option Dom.Element :=
  match resolve root (reverse current) with
  | Some n => Dom.elementAt (reverse current) n
  | None => None
  end.

(** The index of the nearest element among the children before index [i]. *)
Fixpoint prevElementIndex (kids : list Dom.Node) (i : nat) : option nat :=
  match i with
  | 0 => None
  | S j =>
      match kids !! j with
      | Some (Dom.ElementNode _ _ _) => Some j
      | _ => prevElementIndex kids j
      end
  end.

(** [current.previousElementSibling] *)
Definition previousElementSibling (root : Dom.Node) (current : list nat)
    : option (list nat) :=
  match current with
  | [] => None
  | i :: up =>
      match childNodesAt root (reverse up) with
      | Some kids => (fun j => j :: up) <$> prevElementIndex kids i
      | None => None
      end
  end.

(** [current.parentElement] *)
Definition parentElement (current : list nat) : list nat := tail current.

Fixpoint findParentHeadingLoop (fuel : nat) (root : Dom.Node) (current : list nat)
    : option (option Dom.Element) :=
  match fuel with
  | 0 => None
  | S fuel' =>
      match current with
      | [] => Some None
      | _ :: _ =>
          match elementOf root current with
          | None => Some None
          | Some e =>
              if isHeadingWithId e then Some (Some e)
              else
                findParentHeadingLoop fuel' root
                  (match previousElementSibling root current with
                   | Some prev => prev
                   | None => parentElement current
                   end)
          end
      end
  end.

(** What the walk from a position finds: level by level, the element
    and its preceding element siblings, then the levels above. *)
Fixpoint upFind (root : Dom.Node) (here : list nat) (current : list nat)
    : option Dom.Element :=
  match current with
  | [] => None
  | i :: up =>
      match childNodesAt root (reverse up) with
      | Some kids =>
          match find isHeadingWithId (Dom.siblingsBack (here ++ reverse up) kids i) with
          | Some h => Some h
          | None => upFind root here up
          end
      | None => None
      end
  end.

(** Every index of [p] leads to an element. *)
Fixpoint elementPath (n : Dom.Node) (p : list nat) : Prop :=
  match p with
  | [] => True
  | i :: p' =>
      match n with
      | Dom.ElementNode _ _ kids =>
          match kids !! i with
          | Some (Dom.ElementNode t d ks) => elementPath (Dom.ElementNode t d ks) p'
          | _ => False
          end
      | Dom.TextNode _ => False
      end
  end.

(** The elements among the first [i] children, nearest first. *)
Definition before (here : list nat) (kids : list Dom.Node) (i : nat) : list Dom.Element :=
  omap (fun x => x) (reverse (imap (fun j k => Dom.elementAt (here ++ [j]) k) (take i kids))).

End Locator.

(** ** A sample page *)

Module Sample.

(** An introduction that precedes the first heading, then a section. *)
Definition content : Dom.Node :=
  Dom.ElementNode "div" EmptyString
    [Dom.ElementNode "p" EmptyString [Dom.TextNode "Intro: a b testing notes"];
     Dom.ElementNode "h2" "section1" [Dom.TextNode "Section 1"];
     Dom.ElementNode "p" EmptyString
       [Dom.TextNode "This is some content for testing search functionality."]].

Definition page (input : string) : Page :=
  {| searchInputValue := input; mainContent := content;
     searchResultsInnerHTML := "<div>previous results</div>" |}.

Definition intro : Dom.Element :=
  {| Dom.path := [0]; Dom.tagName := "p"; Dom.id := EmptyString;
     Dom.childNodes := [Dom.TextNode "Intro: a b testing notes"] |}.

Definition heading1 : Dom.Element :=
  {| Dom.path := [1]; Dom.tagName := "h2"; Dom.id := "section1";
     Dom.childNodes := [Dom.TextNode "Section 1"] |}.

Definition paragraph : Dom.Element :=
  {| Dom.path := [2]; Dom.tagName := "p"; Dom.id := EmptyString;
     Dom.childNodes :=
       [Dom.TextNode "This is some content for testing search functionality."] |}.

Definition introMatch : Result.t :=
  {| Result.element := intro; Result.heading := None;
     Result.text := "Intro: a b testing notes"; Result.id := None |}.

Definition paragraphMatch : Result.t :=
  {| Result.element := paragraph; Result.heading := Some heading1;
     Result.text := "This is some content for testing search functionality.";
     Result.id := Some "section1" |}.




(** A query of 32768 characters, one more than the engine compiles. *)
Definition longQuery : string :=
  string_of_list_ascii (replicate (2 ^ 15) "a"%char).

End Sample.

(** ** A copy button in an insecure context *)

Module SampleCopy.

Definition world : Clipboard.World :=
  {| Clipboard.body := []; Clipboard.focused := None; Clipboard.selection := None;
     Clipboard.button := {| Clipboard.textContent := "Copy";
                            Clipboard.classList := ["copy-button"] |};
     Clipboard.timers := []; Clipboard.console := [] |}.

Definition env : Copy.Env :=
  {| Copy.clipboard := None; Copy.isSecureContext := false;
     Copy.exec := Clipboard.Returns true |}.

End SampleCopy.

(** ** Markup injection through the "no results" message *)

Module Injection.

Definition input : string := "<img src=x onerror=alert(1)>".

Definition message : string :=
  "<div class=" +:+ JS.quoted "search-no-results" +:+ ">No results found for " +:+
  JS.quoted input +:+ "</div>".

End Injection.

(** * Properties *)

Ltac each_ascii c :=
  destruct c as [[] [] [] [] [] [] [] []].

(** ** The cases of the repository's test suite *)

Example detectLanguage_bash :
  detectLanguage "mkdir folder" = "bash" /\ detectLanguage "git status" = "bash" /\
  detectLanguage "claude --help" = "bash" /\ detectLanguage "unknown code content" = "bash" /\
  detectLanguage EmptyString = "bash".
Proof. repeat split; reflexivity. Qed.

Example detectLanguage_others :
  detectLanguage ("{" +:+ JS.quoted "matcher" +:+ ": " +:+ JS.quoted "Edit|Write" +:+ "}") = "json" /\
  detectLanguage "description: test" = "markdown" /\
  detectLanguage "const variable = 5;" = "javascript" /\
  detectLanguage "import os" = "python".
Proof. repeat split; reflexivity. Qed.

Example escapeRegExp_cases :
  escapeRegExp "test.with+special*chars?" = "test\.with\+special\*chars\?" /\
  escapeRegExp "normal text" = "normal text" /\
  escapeRegExp EmptyString = EmptyString /\
  escapeRegExp "(parentheses)" = "\(parentheses\)" /\
  escapeRegExp "[brackets]" = "\[brackets\]" /\
  escapeRegExp "{braces}" = "\{braces\}".
Proof. repeat split; vm_compute; reflexivity. Qed.

Example highlightText_case :
  highlightText "This is a test string" "test" =
  Normal ("This is a <span class=" +:+ JS.quoted "search-highlight" +:+ ">test</span> string").
Proof. vm_compute. reflexivity. Qed.

Example highlightText_keeps_case :
  highlightText "Hello World, hello" "LLO" =
  Normal ("He<span class=" +:+ JS.quoted "search-highlight" +:+ ">llo</span> World, he<span class=" +:+
          JS.quoted "search-highlight" +:+ ">llo</span>").
Proof. vm_compute. reflexivity. Qed.

Example progress_half :
  updateReadingProgress
    {| bodyScrollTop := Number.Finite 600; rootScrollTop := Number.Finite 600;
       scrollHeight := Number.Finite 2000; clientHeight := Number.Finite 800 |}
  = Percent (Number.Finite (60000 # 1200)).
Proof. reflexivity. Qed.

Example progress_capped :
  updateReadingProgress
    {| bodyScrollTop := Number.Finite 2000; rootScrollTop := Number.Finite 2000;
       scrollHeight := Number.Finite 2000; clientHeight := Number.Finite 800 |}
  = Percent (Number.Finite 100).
Proof. reflexivity. Qed.

Example findParentHeading_paragraph :
  findParentHeading Sample.content Sample.paragraph = Some Sample.heading1 /\
  findParentHeading Sample.content Sample.intro = None.
Proof. split; reflexivity. Qed.

(** ** Strings *)

Lemma append_cons (x : ascii) (a b : string) :
  String x a +:+ b = String x (a +:+ b).
Proof. reflexivity. Qed.

Lemma append_nil (b : string) : EmptyString +:+ b = b.
Proof. reflexivity. Qed.

Lemma append_assoc (a b c : string) : (a +:+ b) +:+ c = a +:+ b +:+ c.
Proof.
  induction a as [|x a IH]; [reflexivity|].
  by rewrite !append_cons, IH.
Qed.

Lemma append_empty_r (a : string) : a +:+ EmptyString = a.
Proof.
  induction a as [|x a IH]; [reflexivity|].
  by rewrite append_cons, IH.
Qed.

Lemma length_append (a b : string) :
  String.length (a +:+ b) = String.length a + String.length b.
Proof.
  induction a as [|x a IH]; [reflexivity|].
  rewrite append_cons. simpl. by rewrite IH.
Qed.

Lemma prefix_append (sub b : string) : String.prefix sub (sub +:+ b) = true.
Proof.
  induction sub as [|c sub IH]; [by destruct b|].
  rewrite append_cons. simpl. by destruct (ascii_dec c c).
Qed.

Lemma prefix_split (sub s : string) :
  String.prefix sub s = true -> exists b, s = sub +:+ b.
Proof.
  revert s. induction sub as [|c sub IH]; intros s H; [by exists s|].
  destruct s as [|d s]; [discriminate|]. simpl in H.
  destruct (ascii_dec c d) as [->|]; [|discriminate].
  destruct (IH _ H) as [b ->]. by exists b.
Qed.

Lemma includes_prefix (s sub : string) :
  String.prefix sub s = true -> JS.includes s sub = true.
Proof. intros H. destruct s; cbn [JS.includes]; by rewrite H. Qed.

Lemma includes_intro (a sub b : string) : JS.includes (a +:+ sub +:+ b) sub = true.
Proof.
  induction a as [|c a IH].
  - rewrite append_nil. apply includes_prefix, prefix_append.
  - rewrite append_cons. simpl. rewrite IH. apply orb_true_r.
Qed.

Lemma includes_split (s sub : string) :
  JS.includes s sub = true -> exists a b, s = a +:+ sub +:+ b.
Proof.
  induction s as [|c s IH]; cbn [JS.includes]; intros H.
  - rewrite orb_false_r in H. apply prefix_split in H as [b ->]. by exists EmptyString, b.
  - apply orb_true_iff in H as [H|H].
    + apply prefix_split in H as [b ->]. by exists EmptyString, b.
    + destruct (IH H) as (a & b & ->). by exists (String c a), b.
Qed.

Lemma occurs_append (c : ascii) (a b : string) :
  occurs c (a +:+ b) = occurs c a || occurs c b.
Proof.
  induction a as [|d a IH]; [reflexivity|].
  rewrite append_cons. simpl. by rewrite IH, orb_assoc.
Qed.

Lemma includes_occurs (s sub : string) (c : ascii) (sub' : string) :
  sub = String c sub' -> occurs c s = false -> JS.includes s sub = false.
Proof.
  intros -> H. destruct (JS.includes s (String c sub')) eqn:E; [|reflexivity].
  apply includes_split in E as (a & b & ->).
  rewrite occurs_append, append_cons in H. simpl in H.
  rewrite Ascii.eqb_refl, orb_true_r in H. discriminate.
Qed.

Lemma occurs_uint (c : ascii) (d : Decimal.uint) :
  RegExp.isDigit c = false -> occurs c (NilEmpty.string_of_uint d) = false.
Proof.
  intros Hc. induction d; simpl; try reflexivity; rewrite IHd, orb_false_r;
    apply Ascii.eqb_neq; intros ->; discriminate.
Qed.

Lemma occurs_ofNat (c : ascii) (n : nat) :
  RegExp.isDigit c = false -> occurs c (JS.ofNat n) = false.
Proof. apply occurs_uint. Qed.











(** ** The highlighter *)

Lemma escapePattern_literal :
  RegExp.new "[.*+?^${}()|[\]\\]" "g" = Normal escapePattern.
Proof. reflexivity. Qed.

Lemma escapeClass_syntax (c : ascii) :
  RegExp.classMatches false false
    [("."%char, "."%char); ("*"%char, "*"%char); ("+"%char, "+"%char);
     ("?"%char, "?"%char); ("^"%char, "^"%char); ("$"%char, "$"%char);
     ("{"%char, "{"%char); ("}"%char, "}"%char); ("("%char, "("%char);
     (")"%char, ")"%char); ("|"%char, "|"%char); ("["%char, "["%char);
     ("]"%char, "]"%char); ("\"%char, "\"%char)] c
  = RegExp.isSyntaxCharacter c.
Proof. each_ascii c; reflexivity. Qed.

Lemma matchAt_escapePattern (p : nat) (c : ascii) (s : string) :
  RegExp.matchAt escapePattern p (String c s) =
  if RegExp.isSyntaxCharacter c then Some (1, ∅) else None.
Proof.
  unfold RegExp.matchAt, escapePattern.
  cbn [RegExp.run RegExp.source RegExp.flags RegExp.ignoreCase RegExp.step
       RegExp.rest RegExp.pos RegExp.captures].
  rewrite escapeClass_syntax.
  destruct (RegExp.isSyntaxCharacter c); [|reflexivity].
  cbn [RegExp.pos RegExp.captures]. do 2 f_equal. lia.
Qed.

Lemma replaceFrom_escapePattern (p : nat) (s : string) :
  RegExp.replaceFrom escapePattern [RegExp.Lit "\"; RegExp.Matched] true 0 p s
  = escapeChars s.
Proof.
  revert p. induction s as [|c s IH]; intros p; [reflexivity|].
  cbn [RegExp.replaceFrom escapeChars]. rewrite matchAt_escapePattern.
  destruct (RegExp.isSyntaxCharacter c).
  - cbn. by rewrite IH.
  - by rewrite IH.
Qed.

Lemma escapeRegExp_chars (s : string) : escapeRegExp s = escapeChars s.
Proof. apply replaceFrom_escapePattern. Qed.

(** The call of [replace] in [escapeRegExp] completes normally. *)
Lemma escapeRegExp_replace (s : string) :
  RegExp.replace escapePattern [RegExp.Lit "\"; RegExp.Matched] s = Normal (escapeRegExp s).
Proof. reflexivity. Qed.

Lemma pushChars_stack (q : string) (st : RegExp.PState) :
  RegExp.stack (pushChars q st) = RegExp.stack st.
Proof. revert st. induction q as [|c q IH]; intros st; [reflexivity|]. simpl. by rewrite IH. Qed.

Lemma atomEscape_syntax (c : ascii) :
  RegExp.isSyntaxCharacter c = true -> RegExp.atomEscape c = Some (RegExp.Char c).
Proof. each_ascii c; intros H; first [discriminate H | reflexivity]. Qed.

Lemma parse_plain (c : ascii) (st : RegExp.PState) (rest : string) :
  RegExp.isSyntaxCharacter c = false ->
  RegExp.parseFrom RegExp.InPattern st (String c rest) =
  RegExp.parseFrom RegExp.InPattern (RegExp.pushTerm (RegExp.Char c) st) rest.
Proof. each_ascii c; intros H; first [discriminate H | reflexivity]. Qed.

Lemma parse_escape (c : ascii) (st : RegExp.PState) (rest : string) :
  RegExp.isSyntaxCharacter c = true ->
  RegExp.parseFrom RegExp.InPattern st (String "\" (String c rest)) =
  RegExp.parseFrom RegExp.InPattern (RegExp.pushTerm (RegExp.Char c) st) rest.
Proof.
  intros H.
  change (RegExp.parseFrom RegExp.InPattern st (String "\" (String c rest)))
    with (match RegExp.atomEscape c with
          | Some t => RegExp.parseFrom RegExp.InPattern (RegExp.pushTerm t st) rest
          | None => None
          end).
  by rewrite atomEscape_syntax.
Qed.

(** An escaped query is read as the sequence of its characters. *)
Lemma parse_escapeChars (q tail : string) (st : RegExp.PState) :
  RegExp.parseFrom RegExp.InPattern st (escapeChars q +:+ tail) =
  RegExp.parseFrom RegExp.InPattern (pushChars q st) tail.
Proof.
  revert st. induction q as [|c q IH]; intros st; [reflexivity|].
  cbn [escapeChars pushChars].
  destruct (RegExp.isSyntaxCharacter c) eqn:E.
  - rewrite !append_cons, parse_escape by done. apply IH.
  - rewrite append_cons, parse_plain by done. apply IH.
Qed.

(** The capture group opened before an escaped query is not taken for a
    [(?] construct. *)
Lemma parse_open_escaped (q tail : string) :
  RegExp.parseFrom RegExp.InPattern RegExp.initial (String "(" (escapeChars q +:+ String ")" tail)) =
  RegExp.parseFrom RegExp.InPattern (RegExp.openCapturing RegExp.initial)
    (escapeChars q +:+ String ")" tail).
Proof.
  destruct q as [|c q]; [reflexivity|].
  cbn [escapeChars].
  destruct (RegExp.isSyntaxCharacter c) eqn:E; [reflexivity|].
  rewrite append_cons. revert E. each_ascii c; intros E; first [discriminate E | reflexivity].
Qed.

Lemma parse_group_escaped (q : string) :
  RegExp.parse ("(" +:+ escapeRegExp q +:+ ")") = Some (groupOf q).
Proof.
  rewrite escapeRegExp_chars. unfold RegExp.parse.
  change ("(" +:+ escapeChars q +:+ ")")
    with (String "(" (escapeChars q +:+ String ")" EmptyString)).
  rewrite parse_open_escaped, parse_escapeChars.
  set (st := pushChars q _).
  assert (Hst : RegExp.stack st = [(RegExp.Capturing 1, RegExp.emptyFrame)])
    by (unfold st; by rewrite pushChars_stack).
  change (RegExp.parseFrom RegExp.InPattern st ")")
    with (match RegExp.closeGroup st with
          | Some st' => RegExp.parseFrom RegExp.InPattern st' EmptyString
          | None => None
          end).
  unfold RegExp.closeGroup. rewrite Hst. reflexivity.
Qed.

Lemma new_group_escaped (q : string) :
  RegExp.new ("(" +:+ escapeRegExp q +:+ ")") "gi" =
  Normal {| RegExp.source := groupOf q;
            RegExp.flags := {| RegExp.global := true; RegExp.ignoreCase := true |} |}.
Proof.
  unfold RegExp.new.
  change (RegExp.parseFlags "gi" _)
    with (Some {| RegExp.global := true; RegExp.ignoreCase := true |}).
  by rewrite parse_group_escaped.
Qed.

(** ** What the highlighter marks *)

Lemma pushChars_cur (q : string) (st : RegExp.PState) :
  RegExp.cur (pushChars q st) =
  {| RegExp.alts := RegExp.alts (RegExp.cur st);
     RegExp.terms := reverse (RegExp.Char <$> list_ascii_of_string q) ++
                     RegExp.terms (RegExp.cur st) |}.
Proof.
  revert st. induction q as [|c q IH]; intros st.
  - by destruct st as [? [] ?].
  - cbn [pushChars list_ascii_of_string fmap list_fmap]. rewrite IH.
    cbn [RegExp.pushTerm RegExp.cur RegExp.alts RegExp.terms].
    by rewrite reverse_cons, <- app_assoc.
Qed.

Lemma seqOf_reverse (cs : list ascii) :
  RegExp.seqOf (reverse (RegExp.Char <$> cs)) = literal (string_of_list_ascii cs).
Proof.
  unfold RegExp.seqOf. induction cs as [|c cs IH]; [reflexivity|].
  cbn [fmap list_fmap]. rewrite reverse_cons, foldl_app. simpl. by rewrite <- IH.
Qed.

Lemma disjOf_pushChars (q : string) (st : RegExp.PState) :
  RegExp.alts (RegExp.cur st) = [] -> RegExp.terms (RegExp.cur st) = [] ->
  RegExp.disjOf (RegExp.cur (pushChars q st)) = literal q.
Proof.
  intros Ha Ht. rewrite pushChars_cur, Ha, Ht, app_nil_r.
  unfold RegExp.disjOf. cbn [RegExp.alts RegExp.terms foldl].
  by rewrite seqOf_reverse, string_of_list_ascii_of_string.
Qed.

Lemma groupOf_literal (q : string) :
  groupOf q = RegExp.Seq (RegExp.Group 1 (literal q)) RegExp.Empty.
Proof. unfold groupOf. by rewrite disjOf_pushChars. Qed.

(** X1: The parser reads an escaped query back as its literal characters. *)
Theorem parse_escapeRegExp_literal (q : string) :
  RegExp.parse (escapeRegExp q) = Some (literal q).
Proof.
  rewrite escapeRegExp_chars. unfold RegExp.parse.
  rewrite <- (append_empty_r (escapeChars q)), parse_escapeChars.
  change (RegExp.parseFrom RegExp.InPattern (pushChars q RegExp.initial) EmptyString)
    with (match RegExp.stack (pushChars q RegExp.initial) with
          | [] => Some (RegExp.disjOf (RegExp.cur (pushChars q RegExp.initial)))
          | _ :: _ => None
          end).
  rewrite pushChars_stack. cbn [RegExp.stack RegExp.initial].
  by rewrite disjOf_pushChars.
Qed.

Lemma run_literal (q : string) (st : RegExp.MState)
    (k : RegExp.MState -> option RegExp.MState) :
  RegExp.run true (literal q) st k =
  if ciPrefix q (RegExp.rest st) then k (advance (String.length q) st) else None.
Proof.
  revert st. induction q as [|c q IH]; intros st.
  - by destruct st.
  - cbn [literal RegExp.run]. unfold RegExp.step. destruct st as [r p caps].
    cbn [RegExp.rest RegExp.pos RegExp.captures ciPrefix].
    destruct r as [|d r]; [reflexivity|].
    unfold RegExp.canonicalize.
    destruct (Ascii.eqb (JS.toUpperCaseChar c) (JS.toUpperCaseChar d)); [|reflexivity].
    rewrite IH. cbn [andb RegExp.rest]. destruct (ciPrefix q r); [|reflexivity].
    f_equal. unfold advance. cbn [RegExp.rest RegExp.pos RegExp.captures String.length dropStr].
    f_equal. lia.
Qed.

Lemma matchAt_query (q : string) (p : nat) (s : string) :
  RegExp.matchAt (queryRegExp q) p s =
  if ciPrefix q s
  then Some (String.length q, {[1 := JS.substring0 (String.length q) s]})
  else None.
Proof.
  unfold RegExp.matchAt, queryRegExp.
  cbn [RegExp.source RegExp.flags RegExp.ignoreCase]. rewrite groupOf_literal.
  cbn [RegExp.run]. rewrite run_literal. cbn [RegExp.rest].
  destruct (ciPrefix q s); [|reflexivity].
  unfold RegExp.setCapture, advance. cbn [RegExp.pos RegExp.rest RegExp.captures].
  replace (String.length q + p - p) with (String.length q) by lia.
  by rewrite insert_empty.
Qed.


(** *** The size limit of the engine *)

Lemma textLength_literal (q : string) :
  RegExp.textLength (literal q) = String.length q.
Proof. induction q as [|c q IH]; [reflexivity|]. cbn [literal RegExp.textLength String.length]. by rewrite IH. Qed.

Lemma textLength_query (q : string) :
  RegExp.textLength (RegExp.source (queryRegExp q)) = String.length q.
Proof.
  unfold queryRegExp. cbn [RegExp.source]. rewrite groupOf_literal.
  cbn [RegExp.textLength]. rewrite textLength_literal. lia.
Qed.

Lemma compile_query (q : string) :
  String.length q <= RegExp.kMaxCPOffset ->
  RegExp.compile (queryRegExp q) = Normal (queryRegExp q).
Proof.
  intros H. unfold RegExp.compile. rewrite textLength_query.
  by rewrite (proj2 (Nat.ltb_ge _ _) H).
Qed.

Lemma compile_query_too_large (q : string) :
  RegExp.kMaxCPOffset < String.length q ->
  RegExp.compile (queryRegExp q) = Throw RegExp.tooLarge.
Proof.
  intros H. unfold RegExp.compile. rewrite textLength_query.
  by rewrite (proj2 (Nat.ltb_lt _ _) H).
Qed.

Lemma highlightText_replace (text q : string) :
  q <> EmptyString ->
  String.length q <= RegExp.kMaxCPOffset ->
  highlightText text q =
  Normal (RegExp.replaceFrom (queryRegExp q) highlightTemplate true 0 0 text).
Proof.
  intros Hq Hlen. unfold highlightText.
  destruct (String.eqb_spec q EmptyString) as [|_]; [done|].
  rewrite new_group_escaped. cbn [mbind Completion_bind].
  fold (queryRegExp q). unfold RegExp.replace. by rewrite compile_query.
Qed.

(** A query longer than the engine compiles makes [replace] throw,
    whatever the text is. *)
Lemma highlightText_too_large (text q : string) :
  RegExp.kMaxCPOffset < String.length q ->
  highlightText text q = Throw RegExp.tooLarge.
Proof.
  intros Hlen. unfold highlightText.
  destruct (String.eqb_spec q EmptyString) as [->|_]; [by inversion Hlen|].
  rewrite new_group_escaped. cbn [mbind Completion_bind].
  fold (queryRegExp q). unfold RegExp.replace. by rewrite compile_query_too_large.
Qed.

Lemma highlightText_total (text query : string) :
  String.length query <= RegExp.kMaxCPOffset ->
  exists html, highlightText text query = Normal html.
Proof.
  intros Hlen. destruct (String.eqb_spec query EmptyString) as [->|Hq]; [by eexists|].
  rewrite highlightText_replace by done. by eexists.
Qed.

Lemma length_le_limit (s : string) :
  Nat.leb (String.length s) RegExp.kMaxCPOffset = true ->
  String.length s <= RegExp.kMaxCPOffset.
Proof. apply Nat.leb_le. Qed.

















(** ** The section locator *)

Lemma climb_heading (p : list nat) (n : Dom.Node) (here : list nat) (h : Dom.Element) :
  climb n here p = Some h -> isHeadingWithId h = true.
Proof.
  revert n here. induction p as [|i p IH]; intros n here H; [by destruct n|].
  destruct n as [d|t id kids]; [discriminate|]. cbn [climb] in H.
  destruct (kids !! i) as [child|]; [|discriminate].
  destruct (climb child (here ++ [i]) p) as [h'|] eqn:E.
  - injection H as <-. by eapply IH.
  - by apply find_some in H as [_ H].
Qed.

(** X6: A heading found for a section is an [h2], [h3] or [h4] that carries
    a non-empty id. *)
Theorem findParentHeading_heading (mainContent : Dom.Node) (element h : Dom.Element) :
  findParentHeading mainContent element = Some h ->
  Dom.tagName h ∈ ["h2"; "h3"; "h4"] /\ Dom.id h <> EmptyString.
Proof.
  intros H. apply climb_heading in H. unfold isHeadingWithId in H.
  apply andb_true_iff in H as [Ht Hi]. split.
  - unfold Dom.matches in Ht. apply existsb_exists in Ht as (t & Hin & Heq).
    apply String.eqb_eq in Heq as ->. by apply list_elem_of_In.
  - intros E. rewrite E in Hi. discriminate Hi.
Qed.

Lemma findParentHeading_heading_witness :
  Dom.tagName Sample.heading1 ∈ ["h2"; "h3"; "h4"] /\ Dom.id Sample.heading1 <> EmptyString.
Proof.
  apply (findParentHeading_heading Sample.content Sample.paragraph). reflexivity.
Defined.

Lemma siblingsBack_head (here : list nat) (kids : list Dom.Node) (i : nat)
    (child : Dom.Node) (e : Dom.Element) :
  kids !! i = Some child -> Dom.elementAt (here ++ [i]) child = Some e ->
  exists rest, Dom.siblingsBack here kids i = e :: rest.
Proof.
  intros Hi He. unfold Dom.siblingsBack.
  rewrite (take_S_r _ _ _ Hi), imap_app. cbn [imap].
  rewrite length_take_le by (apply lookup_lt_Some in Hi; lia).
  rewrite Nat.add_0_r, reverse_snoc. cbn [omap list_omap]. rewrite He. by eexists.
Qed.

Lemma climb_self (p : list nat) (n k : Dom.Node) (here : list nat) (e : Dom.Element) :
  p <> [] -> resolve n p = Some k -> Dom.elementAt (here ++ p) k = Some e ->
  isHeadingWithId e = true -> climb n here p = Some e.
Proof.
  revert n here. induction p as [|i p IH]; intros n here Hp Hr He Hh; [done|].
  destruct n as [d|t id kids]; [discriminate|]. cbn [resolve climb] in *.
  destruct (kids !! i) as [child|] eqn:Hi; [|discriminate].
  destruct p as [|j p].
  - cbn [resolve] in Hr. injection Hr as ->. cbn [climb].
    destruct (siblingsBack_head here kids i k e Hi He) as [rest ->].
    cbn [find]. by rewrite Hh.
  - rewrite (IH child (here ++ [i])); [done | done | done | | done].
    by rewrite <- app_assoc.
Qed.

(** ** Deduplication by section *)

Lemma foldl_dedupStep (results : list Result.t) (acc : list Result.t * gset string) :
  (foldl dedupStep acc results).1 = acc.1 ++ dedupFrom acc.2 results.
Proof.
  revert acc. induction results as [|r rs IH]; intros [kept seen]; simpl.
  - by rewrite app_nil_r.
  - unfold dedupStep at 2. simpl. destruct (Result.heading r) as [h|].
    + destruct (decide (Dom.id h ∈ seen)).
      * by rewrite IH.
      * rewrite IH. simpl. by rewrite <- app_assoc.
    + by rewrite IH.
Qed.

Lemma uniqueResults_dedupFrom (results : list Result.t) :
  uniqueResults results = dedupFrom ∅ results.
Proof. unfold uniqueResults. by rewrite foldl_dedupStep. Qed.

Lemma dedupFrom_heading (seen : gset string) (results : list Result.t) :
  Forall (fun r => exists h, Result.heading r = Some h /\ Dom.id h ∉ seen)
         (dedupFrom seen results).
Proof.
  revert seen. induction results as [|r rs IH]; intros seen; simpl; [constructor|].
  destruct (Result.heading r) as [h|] eqn:Hh; [|apply IH].
  destruct (decide (Dom.id h ∈ seen)); [apply IH|].
  constructor; [by eexists|].
  eapply Forall_impl; [apply IH|]. intros r' (h' & ? & Hn). exists h'. set_solver.
Qed.

Lemma dedupFrom_NoDup (seen : gset string) (results : list Result.t) :
  NoDup (sectionKey <$> dedupFrom seen results).
Proof.
  revert seen. induction results as [|r rs IH]; intros seen; simpl; [constructor|].
  destruct (Result.heading r) as [h|] eqn:Hh; [|apply IH].
  destruct (decide (Dom.id h ∈ seen)); [apply IH|].
  rewrite fmap_cons. constructor; [|apply IH].
  intros Hin. apply list_elem_of_fmap in Hin as (r' & Hk & Hr').
  pose proof (dedupFrom_heading ({[Dom.id h]} ∪ seen) rs) as HF.
  rewrite Forall_forall in HF. destruct (HF _ Hr') as (h' & Hh' & Hn).
  unfold sectionKey in Hk. rewrite Hh, Hh' in Hk. simpl in Hk.
  injection Hk as Hk. set_solver.
Qed.

Lemma dedupFrom_sublist (seen : gset string) (results : list Result.t) :
  sublist (dedupFrom seen results) results.
Proof.
  revert seen. induction results as [|r rs IH]; intros seen; simpl; [constructor|].
  destruct (Result.heading r) as [h|]; [|by constructor].
  destruct (decide (Dom.id h ∈ seen)); by constructor.
Qed.

Lemma dedupFrom_length (seen : gset string) (results : list Result.t) :
  length (dedupFrom seen results) <= length results.
Proof. apply sublist_length, dedupFrom_sublist. Qed.

Lemma dedupFrom_no_heading (seen : gset string) (results : list Result.t) :
  Forall (fun r => Result.heading r = None) results -> dedupFrom seen results = [].
Proof.
  induction 1 as [|r rs Hr _ IH]; simpl; [reflexivity|]. by rewrite Hr.
Qed.

(** A record with a heading is kept exactly when no earlier record was
    filed under the same id. *)
Lemma dedupFrom_first (seen : gset string) (pre post : list Result.t)
    (r : Result.t) (h : Dom.Element) :
  Result.heading r = Some h ->
  Dom.id h ∉ seen ->
  Forall (fun r' => sectionKey r' ≠ Some (Dom.id h)) pre ->
  r ∈ dedupFrom seen (pre ++ r :: post).
Proof.
  intros Hh. revert seen. induction pre as [|r' pre IH]; intros seen Hn Hpre; simpl.
  - rewrite Hh. rewrite decide_False by done. left.
  - inversion Hpre as [|? ? Hr' Hpre']; subst.
    unfold sectionKey in Hr'.
    destruct (Result.heading r') as [h'|]; [|by apply IH].
    simpl in Hr'.
    destruct (decide (Dom.id h' ∈ seen)); [by apply IH|].
    right. apply IH; [|done].
    rewrite elem_of_union, elem_of_singleton. intros [?|?]; [congruence | done].
Qed.

Lemma dedupFrom_inv (seen : gset string) (results : list Result.t) (r : Result.t) :
  r ∈ dedupFrom seen results ->
  exists pre post h,
    results = (pre ++ r :: post) /\ Result.heading r = Some h /\ (Dom.id h ∉ seen) /\
    Forall (fun r' => sectionKey r' ≠ Some (Dom.id h)) pre.
Proof.
  revert seen. induction results as [|r0 rs IH]; intros seen Hin; simpl in Hin.
  - by apply elem_of_nil in Hin.
  - destruct (Result.heading r0) as [h0|] eqn:Hh0.
    + destruct (decide (Dom.id h0 ∈ seen)) as [Hseen|Hseen].
      * destruct (IH _ Hin) as (pre & post & h & -> & Hh & Hn & Hpre).
        exists (r0 :: pre), post, h. repeat split; try done.
        constructor; [|done]. unfold sectionKey. rewrite Hh0. simpl.
        intros [= E]. congruence.
      * apply elem_of_cons in Hin as [->|Hin].
        -- exists [], rs, h0. repeat split; done.
        -- destruct (IH _ Hin) as (pre & post & h & -> & Hh & Hn & Hpre).
           rewrite elem_of_union, elem_of_singleton in Hn.
           exists (r0 :: pre), post, h. repeat split; try done.
           ++ intros ?. apply Hn. by right.
           ++ constructor; [|done]. unfold sectionKey. rewrite Hh0. simpl.
              intros [= E]. apply Hn. by left.
    + destruct (IH _ Hin) as (pre & post & h & -> & Hh & Hn & Hpre).
      exists (r0 :: pre), post, h. repeat split; try done.
      constructor; [|done]. unfold sectionKey. by rewrite Hh0.
Qed.

(** X13: The records kept are the first ones filed under each section id:
    a record is kept exactly when it has a heading and no record before
    it has a heading with the same id. *)
Lemma uniqueResults_first_per_section (results : list Result.t) (r : Result.t) :
  r ∈ uniqueResults results <->
  exists pre post h,
    results = (pre ++ r :: post) /\ Result.heading r = Some h /\
    Forall (fun r' => sectionKey r' ≠ Some (Dom.id h)) pre.
Proof.
  rewrite uniqueResults_dedupFrom. split.
  - intros H. apply dedupFrom_inv in H as (pre & post & h & ? & ? & _ & ?).
    by exists pre, post, h.
  - intros (pre & post & h & -> & Hh & Hpre).
    eapply dedupFrom_first; [exact Hh | apply not_elem_of_empty | exact Hpre].
Qed.

(** X14: No two records kept by the deduplication have headings with the
    same id. *)
Lemma uniqueResults_distinct_sections (results : list Result.t) :
  NoDup (sectionKey <$> uniqueResults results).
Proof. rewrite uniqueResults_dedupFrom. apply dedupFrom_NoDup. Qed.

Lemma uniqueResults_headings (results : list Result.t) :
  Forall (fun r => exists h, Result.heading r = Some h) (uniqueResults results).
Proof.
  rewrite uniqueResults_dedupFrom.
  eapply Forall_impl; [apply dedupFrom_heading|]. intros r (h & ? & _). by exists h.
Qed.

Lemma displayed_length (results : list Result.t) :
  length (displayed results) <= 5 /\ length (displayed results) <= length results.
Proof.
  unfold displayed. rewrite length_take, uniqueResults_dedupFrom.
  pose proof (dedupFrom_length ∅ results). lia.
Qed.

(** ** Rendering *)

Lemma renderResult_total (query : string) (r : Result.t) :
  String.length query <= RegExp.kMaxCPOffset ->
  exists html, renderResult query r = Normal html.
Proof.
  intros Hq. unfold renderResult.
  destruct (highlightText_total (headingText r) query Hq) as [h ->].
  destruct (highlightText_total (snippet r) query Hq) as [sn ->].
  by eexists.
Qed.

Lemma renderResult_too_large (query : string) (r : Result.t) :
  RegExp.kMaxCPOffset < String.length query ->
  renderResult query r = Throw RegExp.tooLarge.
Proof.
  intros Hq. unfold renderResult.
  rewrite (highlightText_too_large (headingText r) query Hq). reflexivity.
Qed.

Lemma mapC_renderResult (query : string) (rs : list Result.t) :
  String.length query <= RegExp.kMaxCPOffset \/ rs = [] ->
  exists entries,
    mapC (renderResult query) rs = Normal entries /\ length entries = length rs.
Proof.
  intros [Hq| ->]; [|by exists []].
  induction rs as [|r rs (entries & IH & Hlen)]; [by exists []|].
  destruct (renderResult_total query r Hq) as [html Hr].
  exists (html :: entries). simpl. rewrite Hr, IH. simpl. by rewrite Hlen.
Qed.

(** With a query the engine does not compile, the first record handed to
    the renderer makes it throw. *)
Lemma mapC_renderResult_too_large (query : string) (rs : list Result.t) :
  RegExp.kMaxCPOffset < String.length query -> rs <> [] ->
  mapC (renderResult query) rs = Throw RegExp.tooLarge.
Proof.
  intros Hq Hne. destruct rs as [|r rs]; [done|].
  cbn [mapC]. by rewrite renderResult_too_large.
Qed.

Lemma displaySearchResults_too_large (results : list Result.t) (query : string)
    (pg : Page) :
  RegExp.kMaxCPOffset < String.length query -> displayed results <> [] ->
  displaySearchResults results query pg = Throw RegExp.tooLarge.
Proof.
  intros Hq Hne. unfold displaySearchResults.
  destruct results as [|r rs]; [done|]. cbn [length Nat.eqb].
  by rewrite mapC_renderResult_too_large.
Qed.

Lemma displaySearchResults_nonempty (results : list Result.t) (query : string)
    (pg : Page) (entries : list string) :
  results <> [] ->
  mapC (renderResult query) (displayed results) = Normal entries ->
  displaySearchResults results query pg =
  Normal (setInnerHTML (resultsMarkup (length results) entries) pg).
Proof.
  intros Hne Hmap. unfold displaySearchResults.
  destruct results; [done|]. simpl length. cbn [Nat.eqb].
  rewrite Hmap. reflexivity.
Qed.

Lemma headerHtml_no_N (n : nat) : occurs "N" (headerHtml n) = false.
Proof.
  unfold headerHtml, totalResults.
  destruct (negb (Nat.eqb n 1)), (Nat.ltb 5 n);
    rewrite !occurs_append, !occurs_ofNat by reflexivity; reflexivity.
Qed.

(** C1, evaluated on the sample page for the query "testing": the match
    list holds the introduction with a null section id and the paragraph
    of section1; deduplication keeps the paragraph only, so the record with
    the null section id is dropped rather than retained.  For every match
    list the records kept all have a heading. *)
Theorem null_section_record_dropped :
  collectResults (Sample.page "testing") =
    Some [Sample.introMatch; Sample.paragraphMatch] /\
  Result.id Sample.introMatch = None /\
  uniqueResults [Sample.introMatch; Sample.paragraphMatch] = [Sample.paragraphMatch] /\
  (Sample.introMatch ∉ uniqueResults [Sample.introMatch; Sample.paragraphMatch]) /\
  (forall results : list Result.t,
     Forall (fun r => exists h, Result.heading r = Some h) (uniqueResults results)).
Proof.
  assert (Hu : uniqueResults [Sample.introMatch; Sample.paragraphMatch] =
               [Sample.paragraphMatch]).
  { rewrite uniqueResults_dedupFrom. simpl.
    rewrite decide_False by apply not_elem_of_empty. reflexivity. }
  split; [vm_compute; reflexivity|]. split; [reflexivity|]. split; [exact Hu|].
  split; [|apply uniqueResults_headings].
  rewrite Hu. intros H. apply list_elem_of_singleton in H. discriminate H.
Qed.

Lemma header_reports_total (n : nat) (entries : list string) :
  JS.includes (resultsMarkup n entries)
    (if Nat.ltb 5 n
     then "Found " +:+ JS.ofNat n +:+ " results (showing 5 of " +:+ JS.ofNat n +:+ ")"
     else "Found " +:+ JS.ofNat n +:+ " result") = true.
Proof.
  unfold resultsMarkup, headerHtml, totalResults.
  destruct (Nat.ltb 5 n) eqn:E5.
  - assert (Nat.eqb n 1 = false) as ->.
    { apply Nat.eqb_neq. apply Nat.ltb_lt in E5. lia. }
    cbn [negb].
    match goal with
    | |- JS.includes ?h ?sub = true =>
        replace h with
          ((JS.nl 12 +:+ "<div class=" +:+ JS.quoted "search-results-header" +:+ ">" +:+
            JS.nl 16) +:+ sub +:+
           (JS.nl 12 +:+ "</div>" +:+ JS.nl 12 +:+ JS.join entries +:+ JS.nl 8))
    end; [apply includes_intro|].
    rewrite !append_assoc. reflexivity.
  - match goal with
    | |- JS.includes ?h ?sub = true =>
        replace h with
          ((JS.nl 12 +:+ "<div class=" +:+ JS.quoted "search-results-header" +:+ ">" +:+
            JS.nl 16) +:+ sub +:+
           ((if negb (Nat.eqb n 1) then "s" else EmptyString) +:+
            JS.nl 12 +:+ "</div>" +:+ JS.nl 12 +:+ JS.join entries +:+ JS.nl 8))
    end; [apply includes_intro|].
    rewrite !append_assoc. reflexivity.
Qed.

Lemma displaySearchResults_rendered (results : list Result.t) (query : string)
    (pg : Page) (entries : list string) :
  mapC (renderResult query) (displayed results) = Normal entries ->
  displaySearchResults results query pg =
  Normal (setInnerHTML
            (if Nat.eqb (length results) 0 then noResultsHtml query
             else resultsMarkup (length results) entries) pg).
Proof.
  intros Hmap. destruct results as [|r rs] eqn:E; [reflexivity|]. rewrite <- E in *.
  rewrite (displaySearchResults_nonempty results query pg entries) by (by subst).
  subst results. reflexivity.
Qed.

(** C9: for every match list and every query at most five records are
    handed to the renderer, and not more than the match list holds.  When
    [displaySearchResults] completes, one entry is rendered per such
    record, the reported total [results.length] is at least the number
    rendered, and the header reads "Found N result(s)", followed by
    "(showing 5 of N)" when N exceeds five, with N the length of the match
    list before deduplication and truncation.  It completes unless the
    query is longer than the engine compiles and some record is to be
    rendered: then [highlightText] throws, [innerHTML] is not assigned and
    no record is rendered. *)
Theorem display_truncation (results : list Result.t) (query : string) (pg : Page) :
  length (displayed results) <= 5 /\
  length (displayed results) <= length results /\
  match displaySearchResults results query pg with
  | Normal pg' =>
      exists entries,
        mapC (renderResult query) (displayed results) = Normal entries /\
        length entries = length (displayed results) /\
        length entries <= 5 /\
        length entries <= length results /\
        pg' = setInnerHTML
                (if Nat.eqb (length results) 0 then noResultsHtml query
                 else resultsMarkup (length results) entries) pg /\
        JS.includes (resultsMarkup (length results) entries)
          (if Nat.ltb 5 (length results)
           then "Found " +:+ JS.ofNat (length results) +:+ " results (showing 5 of " +:+
                JS.ofNat (length results) +:+ ")"
           else "Found " +:+ JS.ofNat (length results) +:+ " result") = true
  | Throw e =>
      e = RegExp.tooLarge /\ RegExp.kMaxCPOffset < String.length query /\
      displayed results <> []
  end.
Proof.
  destruct (displayed_length results) as [H5 Hn].
  split; [exact H5|]. split; [exact Hn|].
  assert (Hcases : (String.length query <= RegExp.kMaxCPOffset \/ displayed results = []) \/
                   (RegExp.kMaxCPOffset < String.length query /\ displayed results <> [])).
  { destruct (Nat.le_gt_cases (String.length query) RegExp.kMaxCPOffset) as [Hq|Hq];
      [by left; left|].
    destruct (decide (displayed results = [])) as [Hd|Hd]; [by left; right | by right]. }
  destruct Hcases as [Hok|[Hq Hd]].
  - destruct (mapC_renderResult query (displayed results) Hok) as (entries & Hmap & Hlen).
    rewrite (displaySearchResults_rendered results query pg entries Hmap).
    exists entries. repeat split; try done; try lia. apply header_reports_total.
  - by rewrite displaySearchResults_too_large.
Qed.

(** C10: when the match list is not empty and every record has a null
    heading, nothing is rendered below the header: the result area holds
    the "Found N result(s)" header for the length N of the match list and
    no entry, and it does not hold the "No results found" message.  In
    general every rendered record has a heading, so the fallback label
    'Content' is never rendered. *)
Theorem null_headings_render_header_only (results : list Result.t)
    (query : string) (pg : Page) :
  results <> [] ->
  Forall (fun r => Result.heading r = None) results ->
  displayed results = [] /\
  displaySearchResults results query pg =
    Normal (setInnerHTML (resultsMarkup (length results) []) pg) /\
  JS.includes (resultsMarkup (length results) [])
    ("Found " +:+ JS.ofNat (length results) +:+ " result") = true /\
  JS.includes (resultsMarkup (length results) []) "No results found" = false /\
  (forall results' : list Result.t,
     Forall (fun r => exists h, Result.heading r = Some h /\
                                headingText r = Dom.textContentOf h)
            (displayed results')).
Proof.
  intros Hne Hall.
  assert (Hd : displayed results = []).
  { unfold displayed. rewrite uniqueResults_dedupFrom, dedupFrom_no_heading by done.
    reflexivity. }
  split; [exact Hd|]. split; [|split; [|split]].
  - apply displaySearchResults_nonempty; [done|]. by rewrite Hd.
  - unfold resultsMarkup, headerHtml.
    match goal with
    | |- JS.includes ?h ?sub = true =>
        replace h with
          ((JS.nl 12 +:+ "<div class=" +:+ JS.quoted "search-results-header" +:+ ">" +:+
            JS.nl 16) +:+ sub +:+
           ((if negb (Nat.eqb (length results) 1) then "s" else EmptyString) +:+
            totalResults (length results) +:+
            JS.nl 12 +:+ "</div>" +:+ JS.nl 12 +:+ JS.join [] +:+ JS.nl 8))
    end; [apply includes_intro|].
    rewrite !append_assoc. reflexivity.
  - eapply includes_occurs; [reflexivity|].
    unfold resultsMarkup. rewrite occurs_append, headerHtml_no_N. reflexivity.
  - intros results'. unfold displayed. rewrite uniqueResults_dedupFrom.
    apply Forall_take.
    eapply Forall_impl; [apply dedupFrom_heading|].
    intros r (h & Hh & _). exists h. split; [done|].
    unfold headingText. by rewrite Hh.
Qed.

Lemma null_headings_render_header_only_witness :
  displayed [Sample.introMatch] = [] /\
  displaySearchResults [Sample.introMatch] "testing" (Sample.page "testing") =
    Normal (setInnerHTML (resultsMarkup 1 []) (Sample.page "testing")).
Proof.
  pose proof (null_headings_render_header_only [Sample.introMatch] "testing"
                (Sample.page "testing")) as H.
  destruct H as (H1 & H2 & _).
  - discriminate.
  - repeat constructor.
  - split; [exact H1 | exact H2].
Defined.

(** ** The document tree: positions identify elements *)

Lemma Node_ind' (P : Dom.Node -> Prop) :
  (forall d, P (Dom.TextNode d)) ->
  (forall t i kids, Forall P kids -> P (Dom.ElementNode t i kids)) ->
  forall n, P n.
Proof.
  intros Htext Helem. fix IH 1. intros [d|t i kids]; [apply Htext|].
  apply Helem. induction kids as [|k kids IHk]; constructor; [apply IH | exact IHk].
Qed.

Lemma elementAt_path (p : list nat) (n : Dom.Node) (e : Dom.Element) :
  Dom.elementAt p n = Some e -> Dom.path e = p.
Proof. destruct n; simpl; intros H; [discriminate|]. by injection H as <-. Qed.

Lemma childrenWith_elem (below : list nat -> Dom.Node -> list Dom.Element)
    (here : list nat) (ks : list Dom.Node) (i : nat) (e : Dom.Element) :
  e ∈ Dom.childrenWith below here i ks ->
  exists j k, ks !! j = Some k /\
    (Dom.elementAt (here ++ [i + j]) k = Some e \/ e ∈ below (here ++ [i + j]) k).
Proof.
  revert i. induction ks as [|k ks IH]; intros i H; simpl in H.
  - by apply elem_of_nil in H.
  - rewrite !elem_of_app in H. destruct H as [H|[H|H]].
    + exists 0, k. split; [done|]. left. rewrite Nat.add_0_r.
      destruct (Dom.elementAt (here ++ [i]) k) as [e'|]; simpl in H.
      * apply list_elem_of_singleton in H. by subst.
      * by apply elem_of_nil in H.
    + exists 0, k. split; [done|]. right. by rewrite Nat.add_0_r.
    + destruct (IH _ H) as (j & k' & Hj & Hk). exists (S j), k'.
      split; [done|]. by replace (i + S j) with (S i + j) by lia.
Qed.

Lemma descendants_resolve (n : Dom.Node) (here : list nat) (e : Dom.Element) :
  e ∈ Dom.descendants here n ->
  exists p k, Dom.path e = here ++ p /\ resolve n p = Some k /\
              Dom.elementAt (Dom.path e) k = Some e.
Proof.
  revert here. induction n as [d|t i kids IH] using Node_ind'; intros here H; simpl in H.
  - by apply elem_of_nil in H.
  - apply childrenWith_elem in H as (j & k & Hj & [H|H]); simpl in H.
    + exists [j], k. pose proof (elementAt_path _ _ _ H) as Hp.
      split; [exact Hp|]. split; [simpl; by rewrite Hj | by rewrite Hp].
    + rewrite Forall_forall in IH.
      destruct (IH k (list_elem_of_lookup_2 _ _ _ Hj) _ H) as (p & k' & Hp & Hr & He).
      exists (j :: p), k'. split; [by rewrite Hp, <- app_assoc|].
      split; [simpl; by rewrite Hj | exact He].
Qed.

Lemma descendants_same (n : Dom.Node) (e1 e2 : Dom.Element) :
  e1 ∈ Dom.descendants [] n -> e2 ∈ Dom.descendants [] n ->
  Dom.path e1 = Dom.path e2 -> e1 = e2.
Proof.
  intros H1 H2 Hp.
  apply descendants_resolve in H1 as (p1 & k1 & Hp1 & Hr1 & He1).
  apply descendants_resolve in H2 as (p2 & k2 & Hp2 & Hr2 & He2).
  simpl in Hp1, Hp2. rewrite <- Hp1 in Hr1. rewrite <- Hp2, <- Hp in Hr2.
  rewrite Hr1 in Hr2. injection Hr2 as <-. rewrite <- Hp in He2. congruence.
Qed.

Lemma querySelectorAll_same (root : Dom.Node) (tags : list string) (e1 e2 : Dom.Element) :
  e1 ∈ Dom.querySelectorAll root tags -> e2 ∈ Dom.querySelectorAll root tags ->
  Dom.same e1 e2 = true -> e1 = e2.
Proof.
  unfold Dom.querySelectorAll, Dom.same. rewrite !list_elem_of_filter.
  intros [_ H1] [_ H2] Hs. apply bool_decide_eq_true in Hs.
  by apply (descendants_same root).
Qed.

Lemma childrenWith_path (here : list nat) (ks : list Dom.Node) (i : nat)
    (e : Dom.Element) :
  e ∈ Dom.childrenWith Dom.descendants here i ks ->
  exists j p, Dom.path e = here ++ (i + j) :: p.
Proof.
  intros H. apply childrenWith_elem in H as (j & k & _ & [H|H]).
  - apply elementAt_path in H. by exists j, [].
  - apply descendants_resolve in H as (p & _ & H & _).
    exists j, p. by rewrite H, <- app_assoc.
Qed.

Lemma descendants_path (n : Dom.Node) (here : list nat) (e : Dom.Element) :
  e ∈ Dom.descendants here n -> exists j p, Dom.path e = here ++ j :: p.
Proof.
  destruct n as [d|t i kids]; simpl; intros H; [by apply elem_of_nil in H|].
  apply childrenWith_path in H as (j & p & H). by exists j, p.
Qed.

Lemma childrenWith_NoDup (here : list nat) (ks : list Dom.Node) (i : nat) :
  Forall (fun k => forall here', NoDup (Dom.path <$> Dom.descendants here' k)) ks ->
  NoDup (Dom.path <$> Dom.childrenWith Dom.descendants here i ks).
Proof.
  intros HF. revert i. induction HF as [|k ks Hk _ IH]; intros i; simpl; [constructor|].
  rewrite !fmap_app. apply NoDup_app. split; [|split].
  - destruct (Dom.elementAt (here ++ [i]) k); simpl; [apply NoDup_singleton | constructor].
  - intros x Hx Hin.
    destruct (Dom.elementAt (here ++ [i]) k) as [e|] eqn:E; simpl in Hx;
      [|by apply elem_of_nil in Hx].
    apply list_elem_of_singleton in Hx. subst x. apply elementAt_path in E. rewrite E in Hin.
    apply elem_of_app in Hin as [Hin|Hin];
      apply list_elem_of_fmap in Hin as (e' & He' & Hin).
    + apply descendants_path in Hin as (j & p & Hp). rewrite Hp, <- app_assoc in He'.
      apply app_inv_head in He'. discriminate He'.
    + apply childrenWith_path in Hin as (j & p & Hp). rewrite Hp in He'.
      apply app_inv_head in He'. injection He' as He' _. lia.
  - apply NoDup_app. split; [apply Hk|]. split; [|apply IH].
    intros x Hx Hin.
    apply list_elem_of_fmap in Hx as (e1 & -> & H1).
    apply list_elem_of_fmap in Hin as (e2 & He & H2).
    apply descendants_path in H1 as (j1 & p1 & Hp1).
    apply childrenWith_path in H2 as (j2 & p2 & Hp2).
    rewrite Hp1, Hp2, <- app_assoc in He. apply app_inv_head in He.
    injection He as He _. lia.
Qed.

Lemma descendants_NoDup (n : Dom.Node) (here : list nat) :
  NoDup (Dom.path <$> Dom.descendants here n).
Proof.
  revert here. induction n as [d|t i kids IH] using Node_ind'; intros here; simpl.
  - constructor.
  - by apply childrenWith_NoDup.
Qed.

(** No element is listed twice by [querySelectorAll]. *)
Lemma querySelectorAll_NoDup (root : Dom.Node) (tags : list string) :
  NoDup (Dom.path <$> Dom.querySelectorAll root tags).
Proof.
  unfold Dom.querySelectorAll.
  eapply sublist_NoDup; [apply (descendants_NoDup root [])|].
  apply fmap_sublist, sublist_filter.
Qed.

(** X7: A heading with an id that lies in the searchable region is its own
    section heading. *)
Theorem findParentHeading_self (mainContent : Dom.Node) (e : Dom.Element) :
  e ∈ Dom.descendants [] mainContent ->
  isHeadingWithId e = true ->
  findParentHeading mainContent e = Some e.
Proof.
  intros Hin Hh. destruct (descendants_resolve _ _ _ Hin) as (p & k & Hp & Hr & He).
  simpl in Hp. unfold findParentHeading. rewrite Hp in *.
  apply (climb_self p mainContent k); try done.
  intros ->. cbn [resolve] in Hr. injection Hr as <-.
  destruct mainContent; simpl in Hin; [by apply elem_of_nil in Hin|].
  apply childrenWith_elem in Hin as (j & k' & _ & [H|H]).
  - apply elementAt_path in H. rewrite Hp in H. discriminate H.
  - apply descendants_resolve in H as (p' & _ & H & _). rewrite Hp in H. discriminate H.
Qed.

Lemma findParentHeading_self_witness :
  findParentHeading Sample.content Sample.heading1 = Some Sample.heading1.
Proof.
  apply findParentHeading_self.
  - vm_compute. right. left.
  - reflexivity.
Defined.

(** ** The loop of the section locator *)

Lemma resolve_app (n : Dom.Node) (p q : list nat) :
  resolve n (p ++ q) =
  match resolve n p with
  | Some m => resolve m q
  | None => None
  end.
Proof.
  revert n. induction p as [|i p IH]; intros n; [by destruct q|].
  destruct n as [d|t id kids]; [reflexivity|]. cbn [app resolve].
  destruct (kids !! i); [apply IH | reflexivity].
Qed.

Lemma childNodesAt_resolve (root : Dom.Node) (p : list nat) (kids : list Dom.Node) :
  Locator.childNodesAt root p = Some kids ->
  exists t d, resolve root p = Some (Dom.ElementNode t d kids).
Proof.
  unfold Locator.childNodesAt. destruct (resolve root p) as [[|t d ks]|]; try discriminate.
  intros [= ->]. by exists t, d.
Qed.

Lemma childNodesAt_cons (t d : string) (kids : list Dom.Node) (i : nat)
    (child : Dom.Node) (q : list nat) :
  kids !! i = Some child ->
  Locator.childNodesAt (Dom.ElementNode t d kids) (i :: q) = Locator.childNodesAt child q.
Proof. intros H. unfold Locator.childNodesAt. cbn [resolve]. by rewrite H. Qed.

Lemma elementPath_snoc (n : Dom.Node) (p : list nat) (i : nat) :
  Locator.elementPath n (p ++ [i]) ->
  Locator.elementPath n p /\
  exists kids t d ks,
    Locator.childNodesAt n p = Some kids /\ kids !! i = Some (Dom.ElementNode t d ks).
Proof.
  revert n. induction p as [|j p IH]; intros n H.
  - destruct n as [x|t0 d0 kids]; [done|]. cbn [app Locator.elementPath] in H.
    destruct (kids !! i) as [[x|t d ks]|] eqn:E; try done.
    split; [done|]. by exists kids, t, d, ks.
  - destruct n as [x|t0 d0 kids]; [done|]. cbn [app Locator.elementPath] in *.
    destruct (kids !! j) as [[x|t d ks]|] eqn:E; try done.
    destruct (IH _ H) as (Hp & kids' & t' & d' & ks' & Hc & Hi).
    split; [done|]. exists kids', t', d', ks'. split; [|done].
    by rewrite (childNodesAt_cons _ _ _ _ _ _ E).
Qed.

Lemma resolve_elementPath (p : list nat) (n : Dom.Node) (t d : string)
    (ks : list Dom.Node) :
  resolve n p = Some (Dom.ElementNode t d ks) -> Locator.elementPath n p.
Proof.
  revert n. induction p as [|i p IH]; intros n H; [done|].
  destruct n as [x|t0 d0 kids]; [discriminate|]. cbn [resolve Locator.elementPath] in *.
  destruct (kids !! i) as [child|]; [|discriminate].
  destruct child as [x|t1 d1 ks1]; [|by apply IH].
  destruct p; discriminate H.
Qed.

Lemma before_S (here : list nat) (kids : list Dom.Node) (j : nat) (k : Dom.Node) :
  kids !! j = Some k ->
  Locator.before here kids (S j) =
  option_list (Dom.elementAt (here ++ [j]) k) ++ Locator.before here kids j.
Proof.
  intros Hj. unfold Locator.before. rewrite (take_S_r _ _ _ Hj), imap_app. cbn [imap].
  rewrite length_take_le by (apply lookup_lt_Some in Hj; lia).
  rewrite Nat.add_0_r, reverse_snoc. cbn [omap list_omap].
  by destruct (Dom.elementAt (here ++ [j]) k).
Qed.

Lemma before_prev (here : list nat) (kids : list Dom.Node) (i : nat) :
  i <= length kids ->
  Locator.before here kids i =
  match Locator.prevElementIndex kids i with
  | Some j => Locator.before here kids (S j)
  | None => []
  end.
Proof.
  induction i as [|j IH]; intros Hi; [reflexivity|].
  destruct (lookup_lt_is_Some_2 kids j ltac:(lia)) as [k Hk].
  cbn [Locator.prevElementIndex]. rewrite Hk. destruct k as [x|t d ks]; [|reflexivity].
  rewrite (before_S _ _ _ _ Hk). cbn [Dom.elementAt option_list app]. apply IH. lia.
Qed.

Lemma siblingsBack_step (here : list nat) (kids : list Dom.Node) (i : nat)
    (k : Dom.Node) (e : Dom.Element) :
  kids !! i = Some k -> Dom.elementAt (here ++ [i]) k = Some e ->
  Dom.siblingsBack here kids i =
  e :: match Locator.prevElementIndex kids i with
       | Some j => Dom.siblingsBack here kids j
       | None => []
       end.
Proof.
  intros Hi He. change (Dom.siblingsBack here kids i) with (Locator.before here kids (S i)).
  rewrite (before_S _ _ _ _ Hi), He. cbn [option_list app]. f_equal.
  apply before_prev. apply lookup_lt_Some in Hi. lia.
Qed.

Lemma prevElementIndex_lt (kids : list Dom.Node) (i j : nat) :
  Locator.prevElementIndex kids i = Some j ->
  j < i /\ exists t d ks, kids !! j = Some (Dom.ElementNode t d ks).
Proof.
  induction i as [|i IH]; [discriminate|]. cbn [Locator.prevElementIndex].
  destruct (kids !! i) as [[x|t d ks]|] eqn:E.
  - intros H. destruct (IH H) as [? ?]. split; [lia | done].
  - intros [= <-]. split; [lia|]. by exists t, d, ks.
  - intros H. destruct (IH H) as [? ?]. split; [lia | done].
Qed.

Lemma elementOf_child (root : Dom.Node) (up : list nat) (kids : list Dom.Node)
    (i : nat) (k : Dom.Node) :
  Locator.childNodesAt root (reverse up) = Some kids -> kids !! i = Some k ->
  Locator.elementOf root (i :: up) = Dom.elementAt (reverse up ++ [i]) k.
Proof.
  intros Hc Hi. apply childNodesAt_resolve in Hc as (t & d & Hr).
  unfold Locator.elementOf. rewrite reverse_cons, resolve_app, Hr. cbn [resolve].
  by rewrite Hi.
Qed.

(** One level of the walk: from a child that is an element the loop
    returns the first heading among it and its preceding element siblings,
    and otherwise what it returns from the parent. *)
Lemma loop_level (root : Dom.Node) (up : list nat) (kids : list Dom.Node)
    (r0 : option Dom.Element) (F0 : nat) :
  Locator.childNodesAt root (reverse up) = Some kids ->
  (forall f, F0 <= f -> Locator.findParentHeadingLoop f root up = Some r0) ->
  forall i t d ks f,
    kids !! i = Some (Dom.ElementNode t d ks) -> F0 + S i <= f ->
    Locator.findParentHeadingLoop f root (i :: up) =
    Some (match find isHeadingWithId (Dom.siblingsBack (reverse up) kids i) with
          | Some h => Some h
          | None => r0
          end).
Proof.
  intros Hc Hup i. induction i as [i IH] using lt_wf_ind. intros t d ks f Hi Hf.
  destruct f as [|f]; [lia|]. cbn [Locator.findParentHeadingLoop].
  rewrite (elementOf_child _ _ _ _ _ Hc Hi). cbn [Dom.elementAt].
  set (e := {| Dom.path := reverse up ++ [i] |}).
  rewrite (siblingsBack_step (reverse up) kids i _ e Hi eq_refl). cbn [find].
  destruct (isHeadingWithId e); [reflexivity|].
  cbn [Locator.previousElementSibling]. rewrite Hc.
  destruct (Locator.prevElementIndex kids i) as [j|] eqn:Ep; cbn [fmap option_fmap option_map].
  - apply prevElementIndex_lt in Ep as (Hlt & t' & d' & ks' & Hj).
    apply (IH j Hlt t' d' ks'); [done | lia].
  - cbn [Locator.parentElement tail find]. apply Hup. lia.
Qed.

Lemma loop_upFind (root : Dom.Node) (current : list nat) :
  Locator.elementPath root (reverse current) ->
  exists F, forall f, F <= f ->
    Locator.findParentHeadingLoop f root current = Some (Locator.upFind root [] current).
Proof.
  induction current as [|i up IH]; intros Hp.
  - exists 1. intros [|f] Hf; [lia | reflexivity].
  - rewrite reverse_cons in Hp.
    apply elementPath_snoc in Hp as (Hup & kids & t & d & ks & Hc & Hi).
    destruct (IH Hup) as [F0 HF0]. exists (F0 + S i). intros f Hf.
    rewrite (loop_level root up kids _ F0 Hc HF0 i t d ks f Hi Hf).
    cbn [Locator.upFind app]. by rewrite Hc.
Qed.

Lemma upFind_snoc (t d : string) (kids : list Dom.Node) (i : nat) (child : Dom.Node)
    (here current : list nat) :
  kids !! i = Some child ->
  Locator.elementPath child (reverse current) ->
  Locator.upFind (Dom.ElementNode t d kids) here (current ++ [i]) =
  match Locator.upFind child (here ++ [i]) current with
  | Some h => Some h
  | None => find isHeadingWithId (Dom.siblingsBack here kids i)
  end.
Proof.
  intros Hi. induction current as [|j up IH]; intros Hp.
  - cbn [app Locator.upFind]. unfold Locator.childNodesAt.
    rewrite reverse_nil, app_nil_r. cbn [resolve].
    by destruct (find isHeadingWithId (Dom.siblingsBack here kids i)).
  - rewrite reverse_cons in Hp.
    apply elementPath_snoc in Hp as (Hup & kids' & t' & d' & ks' & Hc & Hj).
    cbn [app Locator.upFind]. rewrite reverse_app, reverse_singleton. cbn [app].
    rewrite (childNodesAt_cons _ _ _ _ _ _ Hi), Hc.
    replace (here ++ i :: reverse up) with ((here ++ [i]) ++ reverse up)
      by (by rewrite <- app_assoc).
    destruct (find isHeadingWithId
                (Dom.siblingsBack ((here ++ [i]) ++ reverse up) kids' j));
      [reflexivity|]. by apply IH.
Qed.

Lemma climb_upFind (p : list nat) (n : Dom.Node) (here : list nat) :
  Locator.elementPath n p -> climb n here p = Locator.upFind n here (reverse p).
Proof.
  revert n here. induction p as [|i p IH]; intros n here Hp; [by destruct n|].
  destruct n as [x|t d kids]; [done|]. cbn [Locator.elementPath climb] in *.
  destruct (kids !! i) as [[x|t' d' ks]|] eqn:E; try done.
  rewrite reverse_cons, (upFind_snoc _ _ _ _ _ _ _ E) by (by rewrite reverse_involutive).
  by rewrite IH.
Qed.

(** X5: For every element of the searchable region the loop of
    [findParentHeading] terminates, and it returns the heading that the
    level-by-level search gives: from some bound on, more iterations do not
    change the result. *)
Theorem findParentHeading_loop (mainContent : Dom.Node) (e : Dom.Element) :
  e ∈ Dom.descendants [] mainContent ->
  exists bound, forall fuel, bound <= fuel ->
    Locator.findParentHeadingLoop fuel mainContent (reverse (Dom.path e)) =
    Some (findParentHeading mainContent e).
Proof.
  intros Hin. destruct (descendants_resolve _ _ _ Hin) as (p & k & Hp & Hr & He).
  simpl in Hp. destruct k as [x|t d ks]; [discriminate|].
  assert (Hpath : Locator.elementPath mainContent (Dom.path e)).
  { rewrite Hp. by eapply resolve_elementPath. }
  destruct (loop_upFind mainContent (reverse (Dom.path e))) as [F HF].
  { by rewrite reverse_involutive. }
  exists F. intros fuel Hf. rewrite (HF fuel Hf). unfold findParentHeading.
  by rewrite climb_upFind.
Qed.

Lemma findParentHeading_loop_witness :
  exists bound, forall fuel, bound <= fuel ->
    Locator.findParentHeadingLoop fuel Sample.content (reverse (Dom.path Sample.paragraph)) =
    Some (findParentHeading Sample.content Sample.paragraph).
Proof.
  apply findParentHeading_loop. vm_compute. right. right. left.
Defined.

(** ** The section scan *)

Section Scan.

Variable mainContent : Dom.Node.
Variable query : string.
Variable all : list Dom.Element.
Hypothesis all_same : forall e1 e2, e1 ∈ all -> e2 ∈ all -> Dom.same e1 e2 = true -> e1 = e2.

Lemma scanSection_miss (results : list Result.t) (section : Dom.Element) :
  hit query section = false -> scanSection mainContent query results section = results.
Proof. unfold hit, scanSection. by intros ->. Qed.

(** After the scan every matching section has its record; the records
    already present stay, and every record stands for a scanned element. *)
Lemma scan_complete (sections : list Dom.Element) (results : list Result.t) :
  (forall e, e ∈ sections -> e ∈ all) ->
  (forall r, r ∈ results -> Result.element r ∈ all) ->
  let results' := foldl (scanSection mainContent query) results sections in
  (forall r, r ∈ results' -> Result.element r ∈ all) /\
  (forall r, r ∈ results -> r ∈ results') /\
  (forall e, e ∈ sections -> hit query e = true ->
             exists r, r ∈ results' /\ Result.element r = e).
Proof.
  revert results. induction sections as [|sec secs IH]; intros results Hsub Hres; simpl.
  - split; [done|]. split; [done|]. intros e He. by apply elem_of_nil in He.
  - assert (Hsec : sec ∈ all) by (apply Hsub; left).
    assert (Hsecs : forall e, e ∈ secs -> e ∈ all) by (intros e He; apply Hsub; by right).
    set (step := scanSection mainContent query results sec).
    assert (Hstep : (forall r, r ∈ step -> Result.element r ∈ all) /\
                    (forall r, r ∈ results -> r ∈ step) /\
                    (hit query sec = true -> exists r, r ∈ step /\ Result.element r = sec)).
    { unfold step, scanSection. fold (hit query sec). destruct (hit query sec); [|by repeat split].
      destruct (existsb _ results) eqn:Ex.
      - split; [done|]. split; [done|]. intros _.
        apply existsb_exists in Ex as (r & Hr & Hsame).
        apply list_elem_of_In in Hr. exists r. split; [done|].
        apply all_same; [by apply Hres | done | done].
      - split; [|split].
        + intros r Hr. apply elem_of_app in Hr as [Hr|Hr]; [by apply Hres|].
          apply list_elem_of_singleton in Hr. by subst.
        + intros r Hr. apply elem_of_app. by left.
        + intros _. eexists. split; [apply elem_of_app; right; left|]. reflexivity. }
    destruct Hstep as (Hs1 & Hs2 & Hs3).
    destruct (IH step Hsecs Hs1) as (I1 & I2 & I3).
    split; [exact I1|]. split; [intros r Hr; by apply I2, Hs2|].
    intros e He Hhit. apply elem_of_cons in He as [->|He].
    + destruct (Hs3 Hhit) as (r & Hr & Hre). exists r. split; [by apply I2 | done].
    + by apply I3.
Qed.

Lemma scan_no_hit (sections : list Dom.Element) (results : list Result.t) :
  Forall (fun e => hit query e = false) sections ->
  foldl (scanSection mainContent query) results sections = results.
Proof.
  intros H. revert results. induction H as [|sec secs Hsec _ IH]; intros results; simpl.
  - reflexivity.
  - by rewrite scanSection_miss, IH.
Qed.

End Scan.

(** With sections at distinct positions the duplicate check of the scan
    never rejects: one record is appended per matching section. *)
Lemma scan_filter (mainContent : Dom.Node) (query : string)
    (sections : list Dom.Element) (results : list Result.t) :
  NoDup (Dom.path <$> ((Result.element <$> results) ++ sections)) ->
  foldl (scanSection mainContent query) results sections =
  results ++ (recordOf mainContent <$> filter (fun e => hit query e = true) sections).
Proof.
  revert results. induction sections as [|sec secs IH]; intros results Hnd.
  - by rewrite app_nil_r.
  - cbn [foldl].
    assert (Hfresh : existsb (fun r => Dom.same (Result.element r) sec) results = false).
    { destruct (existsb _ results) eqn:Ex; [|reflexivity]. exfalso.
      apply existsb_exists in Ex as (r & Hr & Hsame).
      apply bool_decide_eq_true in Hsame.
      rewrite (fmap_app Dom.path), fmap_cons in Hnd. apply NoDup_app in Hnd as (_ & Hd & _).
      apply (Hd (Dom.path sec)); [|left].
      rewrite <- Hsame. apply list_elem_of_fmap. exists (Result.element r).
      split; [done|]. apply list_elem_of_fmap. exists r. split; [done|].
      by apply list_elem_of_In. }
    unfold scanSection at 2. fold (hit query sec).
    destruct (hit query sec) eqn:Hhit.
    + rewrite Hfresh, IH.
      * rewrite filter_cons_True by done. rewrite fmap_cons, <- app_assoc. reflexivity.
      * match goal with
        | |- NoDup (Dom.path <$> ?l) =>
            replace l with ((Result.element <$> results) ++ sec :: secs); [done|]
        end.
        by rewrite (fmap_app Result.element), <- app_assoc.
    + rewrite IH.
      * rewrite filter_cons_False; [done|]. by rewrite Hhit.
      * rewrite (fmap_app Dom.path), fmap_cons in Hnd. rewrite (fmap_app Dom.path).
        apply NoDup_app in Hnd as (H1 & H2 & H3). apply NoDup_app.
        split; [done|]. split; [|by apply NoDup_cons in H3 as [_ ?]].
        intros x Hx Hin. apply (H2 x Hx). by right.
Qed.

(** ** Search *)

Lemma collectResults_short (pg : Page) :
  String.length (normalizedQuery pg) < 2 -> collectResults pg = None.
Proof.
  intros H. unfold collectResults.
  by rewrite (proj2 (Nat.ltb_lt _ _) H).
Qed.

Lemma collectResults_long (pg : Page) :
  2 <= String.length (normalizedQuery pg) ->
  collectResults pg =
  Some (foldl (scanSection (mainContent pg) (normalizedQuery pg)) []
              (Dom.querySelectorAll (mainContent pg) searchableTags)).
Proof.
  intros H. unfold collectResults.
  assert (Nat.ltb (String.length (normalizedQuery pg)) 2 = false) as ->; [|done].
  apply Nat.ltb_ge. lia.
Qed.

(** X10: When no section contains the query, the message echoes it as it is. *)
Lemma performSearch_no_match (pg : Page) :
  2 <= String.length (normalizedQuery pg) ->
  Forall (fun e => hit (normalizedQuery pg) e = false)
         (Dom.querySelectorAll (mainContent pg) searchableTags) ->
  performSearch pg = Normal (setInnerHTML (noResultsHtml (normalizedQuery pg)) pg).
Proof.
  intros Hlen Hno. unfold performSearch.
  rewrite collectResults_long by done. by rewrite scan_no_hit.
Qed.

Lemma collectResults_records (pg : Page) :
  2 <= String.length (normalizedQuery pg) ->
  collectResults pg =
  Some (recordOf (mainContent pg) <$>
        filter (fun e => hit (normalizedQuery pg) e = true)
               (Dom.querySelectorAll (mainContent pg) searchableTags)).
Proof.
  intros H. rewrite collectResults_long by done. f_equal.
  rewrite scan_filter; [done|]. apply querySelectorAll_NoDup.
Qed.

(** X8: The match list holds exactly one record per section whose
    lower-cased text contains the query, in document order; each record
    carries the section, its heading, its text and the heading's id. *)
Theorem collectResults_filter (pg : Page) :
  2 <= String.length (normalizedQuery pg) ->
  collectResults pg =
  Some (recordOf (mainContent pg) <$>
        filter (fun e => hit (normalizedQuery pg) e = true)
               (Dom.querySelectorAll (mainContent pg) searchableTags)).
Proof.
  intros H. rewrite collectResults_long by done. f_equal.
  rewrite scan_filter; [done|]. apply querySelectorAll_NoDup.
Qed.

Lemma collectResults_filter_witness :
  collectResults (Sample.page "testing") =
  Some (recordOf Sample.content <$>
        filter (fun e => hit "testing" e = true)
               (Dom.querySelectorAll Sample.content searchableTags)).
Proof.
  apply (collectResults_filter (Sample.page "testing")). vm_compute. lia.
Defined.

(** X9: A record of the match list never carries an empty section id, and
    its id is the id of its heading. *)
Theorem collectResults_ids (pg : Page) (results : list Result.t) (r : Result.t) :
  collectResults pg = Some results -> r ∈ results ->
  Result.id r <> Some EmptyString /\
  Result.id r = Dom.id <$> Result.heading r /\
  Result.text r = Dom.textContentOf (Result.element r).
Proof.
  intros Hc Hr.
  assert (Hlen : 2 <= String.length (normalizedQuery pg)).
  { destruct (Nat.lt_ge_cases (String.length (normalizedQuery pg)) 2) as [Hs|]; [|done].
    rewrite collectResults_short in Hc by done. discriminate Hc. }
  rewrite collectResults_records in Hc by done. injection Hc as <-.
  apply list_elem_of_fmap in Hr as (e & -> & _). cbn [recordOf Result.id Result.heading
    Result.text Result.element]. split; [|done].
  destruct (findParentHeading (mainContent pg) e) as [h|] eqn:Hh; [|discriminate].
  apply climb_heading in Hh. unfold isHeadingWithId in Hh.
  apply andb_true_iff in Hh as [_ Hid]. cbn. intros [= E]. rewrite E in Hid. discriminate Hid.
Qed.

Lemma collectResults_ids_witness :
  Result.id Sample.paragraphMatch <> Some EmptyString /\
  Result.id Sample.paragraphMatch = Dom.id <$> Result.heading Sample.paragraphMatch /\
  Result.text Sample.paragraphMatch = Dom.textContentOf (Result.element Sample.paragraphMatch).
Proof.
  apply (collectResults_ids (Sample.page "testing")
           [Sample.introMatch; Sample.paragraphMatch]).
  - vm_compute. reflexivity.
  - right. left.
Defined.

(** C5: when the lower-cased, trimmed input is shorter than two
    characters, [performSearch] builds no match list and completes
    normally with the result area emptied, whatever the content of the
    page is: no section is looked at. *)
Theorem short_query_clears (pg : Page) :
  String.length (normalizedQuery pg) < 2 ->
  collectResults pg = None /\
  performSearch pg = Normal (clearSearchResults pg) /\
  searchResultsInnerHTML (clearSearchResults pg) = EmptyString /\
  (forall content : Dom.Node,
     performSearch (withContent content pg) =
     Normal (withContent content (clearSearchResults pg))).
Proof.
  intros H. split; [by apply collectResults_short|].
  split; [unfold performSearch; by rewrite collectResults_short|].
  split; [reflexivity|].
  intros content. unfold performSearch.
  rewrite (collectResults_short (withContent content pg)) by exact H.
  reflexivity.
Qed.

Lemma short_query_clears_witness :
  performSearch (Sample.page " T ") = Normal (clearSearchResults (Sample.page " T ")) /\
  searchResultsInnerHTML (clearSearchResults (Sample.page " T ")) = EmptyString.
Proof.
  destruct (short_query_clears (Sample.page " T ")) as (_ & H1 & H2 & _).
  - vm_compute. lia.
  - split; [exact H1 | exact H2].
Defined.






(** C4, evaluated at the input [<img src=x onerror=alert(1)>], which no
    section of the sample page contains: the message embeds the query
    unchanged, and parsing the assigned markup creates an [img] element
    next to the [div] of the message, where a text node holding the query
    would create none. *)
Theorem no_results_message_injects_markup :
  performSearch (Sample.page Injection.input) =
    Normal (setInnerHTML Injection.message (Sample.page Injection.input)) /\
  Html.startTags Injection.message = ["div"; "img"] /\
  Html.startTags (noResultsHtml (Html.escapeText Injection.input)) = ["div"].
Proof. repeat split; vm_compute; reflexivity. Qed.

(** ** More on rendering and searching *)

Lemma substring0_length (n : nat) (s : string) :
  String.length (JS.substring0 n s) = Nat.min n (String.length s).
Proof.
  revert s. induction n as [|n IH]; intros [|c s]; try reflexivity.
  cbn [JS.substring0 String.length]. by rewrite IH.
Qed.

(** X16: A snippet is the whole text when that has at most 100 characters,
    and otherwise its first 100 characters followed by three dots, 103
    characters in all. *)
Theorem snippet_bounded (r : Result.t) :
  (String.length (Result.text r) <= 100 /\ snippet r = Result.text r) \/
  (100 < String.length (Result.text r) /\
   snippet r = JS.substring0 100 (Result.text r) +:+ "..." /\
   String.length (snippet r) = 103).
Proof.
  unfold snippet. destruct (Nat.ltb 100 (String.length (Result.text r))) eqn:E.
  - apply Nat.ltb_lt in E. right. split; [done|]. split; [done|].
    rewrite length_append, substring0_length, Nat.min_l by lia. reflexivity.
  - apply Nat.ltb_ge in E. by left.
Qed.

(** X15: The first record that has a heading is always the first one
    displayed. *)
Theorem displayed_first (pre post : list Result.t) (r : Result.t) (h : Dom.Element) :
  Forall (fun r' => Result.heading r' = None) pre ->
  Result.heading r = Some h ->
  exists rest, displayed (pre ++ r :: post) = r :: rest.
Proof.
  intros Hpre Hh. unfold displayed. rewrite uniqueResults_dedupFrom.
  assert (Hd : dedupFrom ∅ (pre ++ r :: post) = r :: dedupFrom ({[Dom.id h]} ∪ ∅) post).
  { induction Hpre as [|r' pre Hr' _ IH]; simpl.
    - rewrite Hh. by rewrite decide_False by apply not_elem_of_empty.
    - by rewrite Hr'. }
  rewrite Hd. by eexists.
Qed.

Lemma displayed_first_witness :
  exists rest, displayed ([Sample.introMatch] ++ Sample.paragraphMatch :: []) =
               Sample.paragraphMatch :: rest.
Proof.
  apply (displayed_first [Sample.introMatch] [] Sample.paragraphMatch Sample.heading1).
  - repeat constructor.
  - reflexivity.
Defined.

Lemma displaySearchResults_html (results : list Result.t) (query : string) :
  String.length query <= RegExp.kMaxCPOffset ->
  exists html, forall pg,
    displaySearchResults results query pg = Normal (setInnerHTML html pg).
Proof.
  intros Hq. destruct results as [|r rs].
  - by eexists.
  - destruct (mapC_renderResult query (displayed (r :: rs))) as (entries & Hmap & _);
      [by left|].
    eexists. intros pg. by apply displaySearchResults_nonempty.
Qed.

Lemma performSearch_html (pg : Page) :
  String.length (normalizedQuery pg) <= RegExp.kMaxCPOffset ->
  exists html, forall old,
    performSearch (setInnerHTML old pg) = Normal (setInnerHTML html pg).
Proof.
  intros Hq. unfold performSearch.
  assert (Hc : forall old, collectResults (setInnerHTML old pg) = collectResults pg)
    by reflexivity.
  destruct (collectResults pg) as [results|] eqn:E.
  - destruct (displaySearchResults_html results (normalizedQuery pg) Hq) as [html Hd].
    exists html. intros old. rewrite Hc.
    change (normalizedQuery (setInnerHTML old pg)) with (normalizedQuery pg).
    by rewrite Hd.
  - exists EmptyString. intros old. by rewrite Hc.
Qed.

Lemma setInnerHTML_same (pg : Page) : setInnerHTML (searchResultsInnerHTML pg) pg = pg.
Proof. by destruct pg. Qed.

(** A search that completes changes the result area only. *)
Lemma performSearch_keeps (pg pg' : Page) :
  performSearch pg = Normal pg' ->
  searchInputValue pg' = searchInputValue pg /\ mainContent pg' = mainContent pg.
Proof.
  unfold performSearch, displaySearchResults.
  destruct (collectResults pg) as [results|]; [|by intros [= <-]].
  destruct (Nat.eqb (length results) 0); [by intros [= <-]|].
  destruct (mapC _ _); [by intros [= <-] | discriminate].
Qed.

(** X12: With a query the engine compiles (at most 32767 characters once
    normalized) a search completes normally, leaves the input and the
    content as they are, and searching again gives the same page: the
    result area depends on the input and the content only. *)
Theorem performSearch_idempotent (pg : Page) :
  String.length (normalizedQuery pg) <= RegExp.kMaxCPOffset ->
  exists pg',
    performSearch pg = Normal pg' /\
    performSearch pg' = Normal pg' /\
    searchInputValue pg' = searchInputValue pg /\
    mainContent pg' = mainContent pg.
Proof.
  intros Hq. destruct (performSearch_html pg Hq) as [html H].
  exists (setInnerHTML html pg). split; [|split; [apply H | done]].
  rewrite <- (setInnerHTML_same pg) at 1. apply H.
Qed.

Lemma performSearch_idempotent_witness :
  exists pg',
    performSearch (Sample.page "Testing ") = Normal pg' /\
    performSearch pg' = Normal pg' /\
    searchInputValue pg' = "Testing " /\
    mainContent pg' = Sample.content.
Proof.
  apply (performSearch_idempotent (Sample.page "Testing ")).
  apply Nat.leb_le. vm_compute. reflexivity.
Defined.

Lemma performSearch_no_match_witness :
  performSearch (Sample.page "zebra") =
  Normal (setInnerHTML (noResultsHtml "zebra") (Sample.page "zebra")).
Proof.
  apply (performSearch_no_match (Sample.page "zebra")).
  - vm_compute. lia.
  - vm_compute. repeat constructor.
Defined.

(** ** Debounced input *)

Lemma debounced_onInput (st : Debounce.State) :
  debounced st ->
  Debounce.pending (Debounce.onInput st) = [(Debounce.nextHandle st, 300)].
Proof.
  intros [Hlen Hin]. unfold Debounce.onInput. cbn [Debounce.pending].
  destruct (Debounce.pending st) as [|[h d] [|t q]] eqn:E; simpl in Hlen; [| |lia].
  - by destruct (Debounce.searchTimeout st).
  - destruct (Hin h d) as [-> ->]; [left|]. cbn [Debounce.clearTimeout].
    rewrite filter_cons_False; [done|]. cbn. tauto.
Qed.

Lemma debounced_step (st : Debounce.State) (e : Debounce.Event) :
  debounced st -> exists st', Debounce.step st e = Normal st' /\ debounced st'.
Proof.
  intros Hst. destruct e as [v|h]; cbn [Debounce.step].
  - eexists. split; [reflexivity|].
    set (st0 := {| Debounce.page := _ |}).
    assert (H0 : debounced st0) by exact Hst.
    unfold debounced. rewrite (debounced_onInput st0 H0). split; [simpl; lia|].
    intros h d Hin. apply list_elem_of_singleton in Hin. by injection Hin as -> ->.
  - case_bool_decide; [|by exists st].
    eexists. split; [reflexivity|]. destruct Hst as [Hlen Hin].
    split; cbn [Debounce.pending Debounce.searchTimeout].
    + etrans; [apply length_filter | done].
    + intros h' d Hd. apply list_elem_of_filter in Hd as [_ Hd]. by apply Hin.
Qed.

Lemma debounced_run (events : list Debounce.Event) (st : Debounce.State) :
  debounced st -> exists st', Debounce.run st events = Normal st' /\ debounced st'.
Proof.
  revert st. induction events as [|e events IH]; intros st Hst; [by exists st|].
  destruct (debounced_step st e Hst) as (st1 & H1 & Hst1).
  destruct (IH st1 Hst1) as (st' & H' & Hst').
  exists st'. cbn [Debounce.run]. by rewrite H1.
Qed.

Lemma run_app (events1 events2 : list Debounce.Event) (st st1 : Debounce.State) :
  Debounce.run st events1 = Normal st1 ->
  Debounce.run st (events1 ++ events2) = Debounce.run st1 events2.
Proof.
  revert st. induction events1 as [|e events1 IH]; intros st H; cbn [Debounce.run app] in *.
  - by injection H as ->.
  - destruct (Debounce.step st e) as [st2|err]; [|discriminate]. by apply IH.
Qed.

(** X22: However the user types and whenever timeouts come due, at most one
    search is pending, it is the one whose handle [searchTimeout] holds, and
    it is due after 300 ms. *)
Theorem debounce_one_pending (pg : Page) (events : list Debounce.Event) :
  exists st,
    Debounce.run (Debounce.initial pg) events = Normal st /\
    length (Debounce.pending st) <= 1 /\
    (forall h d, (h, d) ∈ Debounce.pending st ->
                 Debounce.searchTimeout st = Some h /\ d = 300).
Proof.
  destruct (debounced_run events (Debounce.initial pg)) as (st & H & Hlen & Hin).
  - split; [simpl; lia|]. intros h d Hd. by apply elem_of_nil in Hd.
  - by exists st.
Qed.

(** X23: After an input event exactly one search is pending, whatever
    happened before, and when it comes due the search runs on the value
    typed last: no timeout is left, the input still holds that value, and
    the page is the one [performSearch] returns for it, or the page as it
    was when [performSearch] throws. *)
Theorem debounce_latest_input (pg : Page) (events : list Debounce.Event) (v : string) :
  exists st h st',
    Debounce.run (Debounce.initial pg) (events ++ [Debounce.Input v]) = Normal st /\
    Debounce.pending st = [(h, 300)] /\
    searchInputValue (Debounce.page st) = v /\
    Debounce.step st (Debounce.TimerFires h) = Normal st' /\
    Debounce.pending st' = [] /\
    Debounce.searchTimeout st' = Debounce.searchTimeout st /\
    Debounce.nextHandle st' = Debounce.nextHandle st /\
    searchInputValue (Debounce.page st') = v /\
    match performSearch (Debounce.page st) with
    | Normal pg' => Debounce.page st' = pg'
    | Throw _ => Debounce.page st' = Debounce.page st
    end.
Proof.
  destruct (debounced_run events (Debounce.initial pg)) as (st1 & H1 & Hst1).
  { split; [simpl; lia|]. intros h d Hd. by apply elem_of_nil in Hd. }
  set (st0 := {| Debounce.page := Debounce.setValue v (Debounce.page st1);
                 Debounce.searchTimeout := Debounce.searchTimeout st1;
                 Debounce.nextHandle := Debounce.nextHandle st1;
                 Debounce.pending := Debounce.pending st1 |}).
  assert (H0 : debounced st0) by exact Hst1.
  pose proof (debounced_onInput st0 H0) as Hp.
  set (st := Debounce.onInput st0) in *.
  assert (Hv : searchInputValue (Debounce.page st) = v) by reflexivity.
  exists st, (Debounce.nextHandle st1).
  eexists. split; [by rewrite (run_app _ _ _ _ H1)|]. split; [exact Hp|]. split; [exact Hv|].
  split.
  { cbn [Debounce.step]. rewrite Hp. cbn [fmap list_fmap fst].
    rewrite bool_decide_eq_true_2 by left. reflexivity. }
  cbn [Debounce.pending Debounce.searchTimeout Debounce.nextHandle Debounce.page].
  split; [by rewrite filter_cons_False, filter_nil by (cbn; tauto)|].
  split; [done|]. split; [done|].
  destruct (performSearch (Debounce.page st)) as [pg'|err] eqn:E; [|done].
  split; [|done]. apply performSearch_keeps in E as [-> _]. exact Hv.
Qed.

(** ** Feedback dialog *)

Lemma scrollLock_step (m : Feedback.Modal) (e : Feedback.Event) :
  scrollLockInSync m -> scrollLockInSync (Feedback.step m e).
Proof.
  intros H. destruct e as [| | | |b| |n v|key|i]; cbn [Feedback.step];
    try (right; by split); try (left; by split); try exact H.
  - destruct b; [right; by split | exact H].
  - destruct (String.eqb key "Escape" && Feedback.active m); [right; by split | exact H].
  - destruct (Feedback.timers m !! i) as [[d cb]|]; [|exact H]. by destruct cb.
Qed.

(** X24: Whatever the user does and whichever timeouts come due, scrolling of
    the page is locked exactly while the dialog is open: the dialog is
    active and [overflow] is "hidden", or it is not and [overflow] is empty. *)
Theorem feedback_scroll_lock (label : string) (events : list Feedback.Event) :
  let m := Feedback.run (Feedback.initial label) events in
  (Feedback.active m = true /\ Feedback.overflow m = "hidden") \/
  (Feedback.active m = false /\ Feedback.overflow m = EmptyString).
Proof.
  cbn zeta. unfold Feedback.run.
  assert (H : scrollLockInSync (Feedback.initial label)) by (right; by split).
  revert H. generalize (Feedback.initial label).
  induction events as [|e events IH]; intros m H; [exact H|].
  cbn [foldl]. by apply IH, scrollLock_step.
Qed.

(** ** Clipboard fallback *)

Lemma removeChild_appended (ta : Clipboard.TextArea) (l : list Clipboard.TextArea) :
  delete (length l) (l ++ [ta]) = l.
Proof. induction l as [|x l IH]; simpl; [reflexivity | by rewrite IH]. Qed.

(** The temporary text area is gone after the call, whatever the copy
    command did. *)
Lemma fallback_removes_textarea (text : string) (exec : Clipboard.ExecCommand)
    (w : Clipboard.World) :
  Clipboard.body (Clipboard.fallbackCopyToClipboard text exec w) = Clipboard.body w.
Proof. destruct exec; simpl; apply removeChild_appended. Qed.

Lemma fallback_throw_fails (text err : string) (w : Clipboard.World) :
  Clipboard.feedback (Clipboard.fallbackCopyToClipboard text (Clipboard.Throws err) w)
  = Clipboard.Failed.
Proof. reflexivity. Qed.

Lemma fallback_true_copies (text : string) (w : Clipboard.World) :
  Clipboard.feedback (Clipboard.fallbackCopyToClipboard text (Clipboard.Returns true) w)
  = Clipboard.Copied.
Proof. reflexivity. Qed.

(** C7, evaluated when [document.execCommand('copy')] returns false: the
    return value is not inspected, the button reads "Copied!" with the
    class [copied], nothing is logged, and the text area is removed. *)
Theorem fallback_false_return_reports_copied (text : string) (w : Clipboard.World) :
  let w' := Clipboard.fallbackCopyToClipboard text (Clipboard.Returns false) w in
  Clipboard.feedback w' = Clipboard.Copied /\
  Clipboard.textContent (Clipboard.button w') = "Copied!" /\
  "copied" ∈ Clipboard.classList (Clipboard.button w') /\
  Clipboard.console w' = Clipboard.console w /\
  Clipboard.body w' = Clipboard.body w.
Proof.
  intros w'. split; [reflexivity|]. split; [reflexivity|]. split; [|split].
  - unfold w'. simpl. case_bool_decide; [done|]. apply elem_of_app. right. left.
  - reflexivity.
  - apply fallback_removes_textarea.
Qed.

Lemma filter_fresh (c : string) (l : list string) :
  c ∉ l -> filter (fun x => x ≠ c) (l ++ [c]) = l.
Proof.
  intros Hc. rewrite filter_app, filter_cons_False, filter_nil, app_nil_r by tauto.
  induction l as [|x l IH]; [reflexivity|].
  apply not_elem_of_cons in Hc as [Hx Hc].
  rewrite filter_cons_True by done. by rewrite IH.
Qed.

Lemma classRemove_classAdd (c t : string) (b : Clipboard.Button) :
  c ∉ Clipboard.classList b ->
  Clipboard.classRemove c
    (Clipboard.setText (Clipboard.textContent b)
       (Clipboard.classAdd c (Clipboard.setText t b))) = b.
Proof.
  intros Hc. destruct b as [text classes]. unfold Clipboard.classRemove,
    Clipboard.setText, Clipboard.classAdd. cbn [Clipboard.textContent Clipboard.classList] in *.
  rewrite bool_decide_eq_false_2 by done. by rewrite filter_fresh.
Qed.

Lemma copyToClipboard_cases (text : string) (env : Copy.Env) (w : Clipboard.World) :
  (fallbackTaken env = false /\
   Copy.copyToClipboard text env w = Clipboard.showCopySuccess w) \/
  (fallbackTaken env = true /\
   Copy.copyToClipboard text env w =
   Clipboard.fallbackCopyToClipboard text (Copy.exec env) w).
Proof.
  unfold fallbackTaken, Copy.copyToClipboard.
  destruct (Copy.clipboard env) as [[]|], (Copy.isSecureContext env); cbn; tauto.
Qed.

Lemma copyToClipboard_timers (text : string) (env : Copy.Env) (w : Clipboard.World) :
  (exists cb, Clipboard.timers (Copy.copyToClipboard text env w) =
              Clipboard.timers w ++ [(2000, cb)]) /\
  (Clipboard.feedback (Copy.copyToClipboard text env w) = Clipboard.Failed \/
   Clipboard.feedback (Copy.copyToClipboard text env w) = Clipboard.Copied).
Proof.
  destruct (copyToClipboard_cases text env w) as [[_ ->]|[_ ->]].
  - split; [by eexists | by right].
  - destruct (Copy.exec env) as [ok|err]; (split; [by eexists|]); [by right | by left].
Qed.

(** X17: [copyToClipboard] leaves the children of the body as they were,
    schedules exactly one timeout of 2000 ms, and shows "Failed" exactly
    when the fallback path is taken and the copy command throws; in every
    other case it shows "Copied!". *)
Theorem copyToClipboard_outcome (text : string) (env : Copy.Env) (w : Clipboard.World) :
  let w' := Copy.copyToClipboard text env w in
  Clipboard.body w' = Clipboard.body w /\
  (exists cb, Clipboard.timers w' = Clipboard.timers w ++ [(2000, cb)]) /\
  (Clipboard.feedback w' = Clipboard.Failed <->
   fallbackTaken env = true /\ exists err, Copy.exec env = Clipboard.Throws err) /\
  (Clipboard.feedback w' = Clipboard.Failed \/ Clipboard.feedback w' = Clipboard.Copied).
Proof.
  cbn zeta. destruct (copyToClipboard_timers text env w) as [Ht Hfb].
  split; [|split; [exact Ht|split; [|exact Hfb]]].
  - destruct (copyToClipboard_cases text env w) as [[_ ->]|[_ ->]];
      [reflexivity | apply fallback_removes_textarea].
  - destruct (copyToClipboard_cases text env w) as [[Hf ->]|[Hf ->]].
    + rewrite Hf. split; [discriminate | by intros [? _]].
    + destruct (Copy.exec env) as [ok|err].
      * split; [discriminate | by intros (_ & ? & ?)].
      * split; [by eauto | reflexivity].
Qed.

(** X18: When the timeout scheduled by a copy comes due, a button that read
    "Copy" and carried neither the class [copied] nor [error] is exactly as
    it was before the copy, and no timeout of that copy is left. *)
Theorem copy_feedback_reverts (text : string) (env : Copy.Env) (w : Clipboard.World) :
  Clipboard.textContent (Clipboard.button w) = "Copy" ->
  "copied" ∉ Clipboard.classList (Clipboard.button w) ->
  "error" ∉ Clipboard.classList (Clipboard.button w) ->
  let w' := Copy.fireTimer (length (Clipboard.timers w)) (Copy.copyToClipboard text env w) in
  Clipboard.button w' = Clipboard.button w /\
  Clipboard.timers w' = Clipboard.timers w /\
  Clipboard.body w' = Clipboard.body w.
Proof.
  intros Ht Hc He. cbn zeta.
  assert (Hdel : forall x, delete (length (Clipboard.timers w)) (Clipboard.timers w ++ [x])
                           = Clipboard.timers w).
  { intros x. induction (Clipboard.timers w) as [|y l IH]; simpl; [done | by rewrite IH]. }
  assert (Hlook : forall x, (Clipboard.timers w ++ [x]) !! length (Clipboard.timers w) = Some x).
  { intros x. by rewrite lookup_app_r, Nat.sub_diag by lia. }
  destruct (copyToClipboard_cases text env w) as [[_ ->]|[_ ->]].
  - unfold Copy.fireTimer, Clipboard.showCopySuccess. cbn [Clipboard.setTimeout
      Clipboard.timers Clipboard.withButton]. rewrite Hlook, Hdel. cbn.
    rewrite <- Ht at 1. by rewrite classRemove_classAdd.
  - unfold Clipboard.fallbackCopyToClipboard.
    destruct (Copy.exec env) as [ok|err]; unfold Copy.fireTimer; cbn; rewrite Hlook, Hdel; cbn;
      rewrite removeChild_appended; (split; [|done]);
      rewrite <- Ht at 1; by rewrite classRemove_classAdd.
Qed.

Lemma copy_feedback_reverts_witness :
  Clipboard.button
    (Copy.fireTimer (length (Clipboard.timers SampleCopy.world))
       (Copy.copyToClipboard "ls -la" SampleCopy.env SampleCopy.world)) =
  Clipboard.button SampleCopy.world.
Proof.
  apply (copy_feedback_reverts "ls -la" SampleCopy.env SampleCopy.world).
  - reflexivity.
  - cbn. intros H. apply list_elem_of_singleton in H. discriminate H.
  - cbn. intros H. apply list_elem_of_singleton in H. discriminate H.
Defined.

(** X19: Pending timeouts are never cancelled: when a second copy follows a
    first one and the timeout of the first comes due, the button goes back
    to the idle label although the timeout of the second copy is still
    pending. *)
Theorem copy_stale_timeout (text1 text2 : string) (env1 env2 : Copy.Env)
    (w : Clipboard.World) :
  let w2 := Copy.copyToClipboard text2 env2 (Copy.copyToClipboard text1 env1 w) in
  let w3 := Copy.fireTimer (length (Clipboard.timers w)) w2 in
  Clipboard.feedback w2 <> Clipboard.Idle /\
  Clipboard.feedback w3 = Clipboard.Idle /\
  length (Clipboard.timers w3) = S (length (Clipboard.timers w)).
Proof.
  cbn zeta.
  destruct (copyToClipboard_timers text1 env1 w) as ([cb1 Ht1] & _).
  set (w1 := Copy.copyToClipboard text1 env1 w) in *.
  destruct (copyToClipboard_timers text2 env2 w1) as ([cb2 Ht2] & Hfb).
  set (w2 := Copy.copyToClipboard text2 env2 w1) in *.
  split; [destruct Hfb as [-> | ->]; discriminate|].
  unfold Copy.fireTimer. rewrite Ht2, Ht1.
  rewrite <- app_assoc, lookup_app_r, Nat.sub_diag by lia. cbn [lookup list_lookup app].
  split.
  - by destruct cb1.
  - assert (Hl : length (delete (length (Clipboard.timers w))
                          (Clipboard.timers w ++ [(2000, cb1); (2000, cb2)]))
                 = S (length (Clipboard.timers w))).
    { rewrite length_delete; [rewrite length_app; simpl; lia|].
      rewrite lookup_app_r, Nat.sub_diag by lia. by eexists. }
    by destruct cb1.
Qed.

(** ** Reading progress *)

(** In exact arithmetic, with a positive scrollable height and a
    non-negative offset the width is the percentage, capped at 100. *)
Lemma progress_positive_height (offset total : Q) :
  (0 <= offset)%Q -> (0 < total)%Q ->
  exists q, updateReadingProgress (scrollState offset total) = Percent (Number.Finite q) /\
            (q == Qmin (offset / total * 100) 100)%Q /\ (0 <= q <= 100)%Q.
Proof.
  intros Ho Ht. unfold updateReadingProgress, scrollState.
  cbn [bodyScrollTop rootScrollTop scrollHeight clientHeight].
  assert (Hor : Number.or (Number.Finite 0) (Number.Finite offset) = Number.Finite offset)
    by reflexivity.
  rewrite Hor. cbn [Number.sub Number.div].
  assert (Hsub : (total - 0 == total)%Q) by ring.
  assert (Hnz : Number.isZero (total - 0) = false).
  { unfold Number.isZero. destruct (Qeq_bool (total - 0) 0) eqn:E; [|reflexivity].
    apply Qeq_bool_iff in E. exfalso. apply (Qlt_irrefl 0).
    rewrite <- E at 2. by rewrite Hsub. }
  rewrite Hnz. cbn [Number.mul Number.min].
  assert (Heq : (offset / (total - 0) * 100 == offset / total * 100)%Q)
    by (by rewrite Hsub).
  assert (Hpos : (0 <= offset / total * 100)%Q).
  { apply Qmult_le_0_compat; [|discriminate].
    apply Qle_shift_div_l; [done|]. by rewrite Qmult_0_l. }
  destruct (Qle_bool (offset / (total - 0) * 100) 100) eqn:E.
  - apply Qle_bool_iff in E. eexists. split; [reflexivity|]. rewrite Heq in *.
    split; [|split; done]. symmetry. by apply Q.min_l.
  - eexists. split; [reflexivity|]. split; [|split; discriminate].
    symmetry. apply Q.min_r. rewrite <- Heq.
    apply Qlt_le_weak, Qnot_le_lt. intros Hle.
    apply Qle_bool_iff in Hle. congruence.
Qed.

(** The value computed on a page that can be scrolled. *)
Lemma progress_value (body root sh ch : Q) :
  (ch < sh)%Q ->
  updateReadingProgress (metrics body root sh ch) =
  Percent (Number.Finite
             (if Qle_bool (winScroll body root / (sh - ch) * 100) 100
              then winScroll body root / (sh - ch) * 100 else 100)).
Proof.
  intros Hh. unfold updateReadingProgress, metrics.
  cbn [bodyScrollTop rootScrollTop scrollHeight clientHeight].
  assert (Hor : Number.or (Number.Finite body) (Number.Finite root) =
                Number.Finite (winScroll body root)).
  { unfold Number.or, winScroll. cbn [Number.truthy]. by destruct (Number.isZero body). }
  rewrite Hor. cbn [Number.sub Number.div].
  assert (Hnz : Number.isZero (sh - ch) = false).
  { unfold Number.isZero. destruct (Qeq_bool (sh - ch) 0) eqn:E; [|reflexivity].
    apply Qeq_bool_iff in E. exfalso. apply (Qlt_irrefl 0).
    rewrite <- E at 2. by apply Qlt_minus_iff in Hh. }
  rewrite Hnz. cbn [Number.mul Number.min].
  by destruct (Qle_bool _ 100).
Qed.

Lemma percentage_monotone (w w' h : Q) :
  (0 < h)%Q -> (w <= w')%Q -> (w / h * 100 <= w' / h * 100)%Q.
Proof.
  intros Hh Hw. apply Qmult_le_compat_r; [|discriminate].
  unfold Qdiv. apply Qmult_le_compat_r; [done|].
  apply Qinv_le_0_compat. by apply Qlt_le_weak.
Qed.

(** X20: On a page that can be scrolled (the scroll height exceeds the
    client height) and with a non-negative scroll offset, taken from the
    body or, when that is zero, from the root element, the width is a
    finite percentage between 0 and 100: it is 0 at offset 0, it is 100
    as soon as the offset reaches the scrollable height, and it does not
    decrease when the offset grows.  Rounding is monotone and keeps 0, 1
    and 100, so each of these facts is the same for the rounded
    operations of the language as for the exact ones used here. *)
Theorem progress_scrollable_page (body root sh ch : Q) :
  (0 <= winScroll body root)%Q -> (ch < sh)%Q ->
  exists q,
    updateReadingProgress (metrics body root sh ch) = Percent (Number.Finite q) /\
    (0 <= q <= 100)%Q /\
    ((winScroll body root == 0)%Q -> (q == 0)%Q) /\
    ((sh - ch <= winScroll body root)%Q -> (q == 100)%Q) /\
    (forall body' root' q',
       (winScroll body root <= winScroll body' root')%Q ->
       updateReadingProgress (metrics body' root' sh ch) = Percent (Number.Finite q') ->
       (q <= q')%Q).
Proof.
  intros Hw Hlt. assert (Hh : (0 < sh - ch)%Q) by (by apply Qlt_minus_iff in Hlt).
  rewrite progress_value by done.
  assert (Hmono : forall body' root' q',
            (winScroll body root <= winScroll body' root')%Q ->
            updateReadingProgress (metrics body' root' sh ch) = Percent (Number.Finite q') ->
            exists x', (winScroll body root / (sh - ch) * 100 <= x')%Q /\
                       q' = if Qle_bool x' 100 then x' else 100%Q).
  { intros body' root' q' Hle. rewrite progress_value by done. intros [= <-].
    eexists. split; [|reflexivity]. by apply percentage_monotone. }
  revert Hmono. generalize (winScroll body root) Hw. clear Hw. intros w Hw Hmono.
  set (x := (w / (sh - ch) * 100)%Q) in *.
  assert (Hx0 : (0 <= x)%Q).
  { eapply Qle_trans; [|exact (percentage_monotone 0 w (sh - ch) Hh Hw)].
    apply Qle_lteq. right. unfold Qdiv. ring. }
  assert (Hzero : (w == 0)%Q -> (x == 0)%Q).
  { intros H0. unfold x, Qdiv. rewrite H0. ring. }
  assert (Hend : (sh - ch <= w)%Q -> (100 <= x)%Q).
  { intros He.
    eapply Qle_trans; [|exact (percentage_monotone (sh - ch) w (sh - ch) Hh He)].
    apply Qle_lteq. right. field. intros H0. rewrite H0 in Hh. by apply Qlt_irrefl in Hh. }
  eexists. split; [reflexivity|].
  destruct (Qle_bool x 100) eqn:E.
  - apply Qle_bool_iff in E. split; [done|]. split; [exact Hzero|]. split.
    + intros He. apply Qle_antisym; [done | by apply Hend].
    + intros body' root' q' Hle Hq'.
      destruct (Hmono body' root' q' Hle Hq') as (x' & Hx' & ->).
      destruct (Qle_bool x' 100); [done | exact E].
  - assert (Hgt : (100 < x)%Q).
    { apply Qnot_le_lt. intros Hle. apply Qle_bool_iff in Hle. congruence. }
    split; [split; discriminate|]. split; [|split].
    + intros H0. exfalso. apply (Qlt_irrefl 100).
      eapply Qlt_le_trans; [exact Hgt|]. rewrite (Hzero H0). discriminate.
    + reflexivity.
    + intros body' root' q' Hle Hq'.
      destruct (Hmono body' root' q' Hle Hq') as (x' & Hx' & ->).
      destruct (Qle_bool x' 100) eqn:E'; [|apply Qle_refl].
      apply Qle_bool_iff in E'. exfalso. apply (Qlt_irrefl 100).
      eapply Qlt_le_trans; [exact Hgt|]. by eapply Qle_trans.
Qed.

Lemma progress_scrollable_page_witness :
  exists q,
    updateReadingProgress (metrics 600 0 2000 800) = Percent (Number.Finite q) /\
    (0 <= q <= 100)%Q /\
    ((winScroll 600 0 == 0)%Q -> (q == 0)%Q) /\
    ((2000 - 800 <= winScroll 600 0)%Q -> (q == 100)%Q) /\
    (forall body' root' q',
       (winScroll 600 0 <= winScroll body' root')%Q ->
       updateReadingProgress (metrics body' root' 2000 800) = Percent (Number.Finite q') ->
       (q <= q')%Q).
Proof.
  apply (progress_scrollable_page 600 0 2000 800); [unfold Qle | unfold Qlt]; simpl; lia.
Defined.

(** X21: Whatever the scroll metrics are, the width is never a finite value
    above 100 and never positive infinity. *)
Theorem progress_never_above_100 (m : ScrollMetrics) :
  match updateReadingProgress m with
  | Percent (Number.Finite q) => (q <= 100)%Q
  | Percent (Number.Infinity negative) => negative = true
  | Percent Number.NaN => True
  end.
Proof.
  unfold updateReadingProgress.
  destruct (Number.mul _ _) as [|[]|q]; cbn [Number.min];
    [exact I | reflexivity | apply Qle_refl |].
  destruct (Qle_bool q 100) eqn:E; [by apply Qle_bool_iff | apply Qle_refl].
Qed.

(** C2, evaluated when nothing can be scrolled: with both scroll offsets
    at zero and the scroll height equal to the client height, zero is
    divided by zero and the width is NaN percent, not 0 percent. *)
Theorem progress_zero_height_is_NaN :
  (forall h : Q,
     updateReadingProgress
       {| bodyScrollTop := Number.Finite 0; rootScrollTop := Number.Finite 0;
          scrollHeight := Number.Finite h; clientHeight := Number.Finite h |}
     = Percent Number.NaN) /\
  updateReadingProgress (scrollState 0 0) = Percent Number.NaN /\
  updateReadingProgress (scrollState 0 0) <> Percent (Number.Finite 0).
Proof.
  split; [|split; [reflexivity | discriminate]].
  intros h. unfold updateReadingProgress.
  cbn [bodyScrollTop rootScrollTop scrollHeight clientHeight].
  assert (Hor : Number.or (Number.Finite 0) (Number.Finite 0) = Number.Finite 0)
    by reflexivity.
  rewrite Hor. cbn [Number.sub Number.div].
  assert (Hz : Number.isZero (h - h) = true).
  { unfold Number.isZero. apply Qeq_bool_iff. ring. }
  rewrite Hz. reflexivity.
Qed.

(** ** The highlighter never throws *)

Lemma escapeRegExp_char (c : ascii) :
  escapeRegExp (String c EmptyString) =
  if bool_decide (c ∈ metacharacters) then String "\" (String c EmptyString)
  else String c EmptyString.
Proof. rewrite escapeRegExp_chars. each_ascii c; vm_compute; reflexivity. Qed.

Lemma unescaped_query_rejected :
  RegExp.new ("(" +:+ "a.b*c(" +:+ ")") "gi" = Throw (SyntaxError "Invalid regular expression") /\
  RegExp.new ("(" +:+ "*" +:+ ")") "gi" = Throw (SyntaxError "Invalid regular expression").
Proof. split; reflexivity. Qed.

Lemma length_replicate (n : nat) (c : ascii) :
  String.length (string_of_list_ascii (replicate n c)) = n.
Proof. induction n as [|n IH]; [reflexivity|]. simpl. by rewrite IH. Qed.

Lemma escapeChars_replicate (n : nat) (c : ascii) :
  RegExp.isSyntaxCharacter c = false ->
  escapeChars (string_of_list_ascii (replicate n c)) = string_of_list_ascii (replicate n c).
Proof. intros Hc. induction n as [|n IH]; [reflexivity|]. simpl. by rewrite Hc, IH. Qed.

(** C3 as stated fails: a query of 32768 characters is not empty and
    holds no syntax character, yet the expression built from it is larger
    than the engine compiles and [text.replace] throws. *)
Lemma highlightText_long_query_throws :
  Sample.longQuery <> EmptyString /\
  String.length Sample.longQuery = 2 ^ 15 /\
  escapeRegExp Sample.longQuery = Sample.longQuery /\
  highlightText "some text" Sample.longQuery = Throw RegExp.tooLarge /\
  ~ (exists html, highlightText "some text" Sample.longQuery = Normal html).
Proof.
  assert (Hlen : String.length Sample.longQuery = 2 ^ 15) by apply length_replicate.
  assert (Hthrow : highlightText "some text" Sample.longQuery = Throw RegExp.tooLarge).
  { apply highlightText_too_large. rewrite Hlen. unfold RegExp.kMaxCPOffset.
    rewrite Nat.sub_1_r. apply Nat.lt_pred_l, Nat.pow_nonzero. discriminate. }
  split.
  { intros E. apply (Nat.pow_nonzero 2 15); [discriminate|].
    rewrite <- Hlen, E. reflexivity. }
  split; [exact Hlen|]. split.
  { rewrite escapeRegExp_chars. by apply escapeChars_replicate. }
  split; [exact Hthrow|].
  intros [html H]. rewrite Hthrow in H. discriminate H.
Qed.

(** C3, amended: [highlightText] completes normally for every text and
    every query of at most 32767 characters, whatever syntax characters
    the query holds: [escapeRegExp] puts a backslash before each of the
    characters [. * + ? ^ $ { } ( ) | [ ] \] and leaves the others, the
    pattern built from the escaped query is accepted by the [RegExp]
    constructor with the flags [gi] for every query, and the query [a.b*c]
    is highlighted as a literal.  A longer query makes [highlightText]
    throw, because the engine refuses to compile the expression. *)
Theorem highlightText_throws_only_too_large :
  (forall text query, String.length query <= RegExp.kMaxCPOffset ->
     exists html, highlightText text query = Normal html) /\
  (forall text query, RegExp.kMaxCPOffset < String.length query ->
     highlightText text query = Throw RegExp.tooLarge) /\
  (forall query, exists re,
     RegExp.new ("(" +:+ escapeRegExp query +:+ ")") "gi" = Normal re) /\
  (forall query, escapeRegExp query = escapeChars query) /\
  (forall c, RegExp.isSyntaxCharacter c = bool_decide (c ∈ metacharacters)) /\
  highlightText "xa.b*c and aXb" "a.b*c" =
    Normal ("x<span class=" +:+ JS.quoted "search-highlight" +:+ ">a.b*c</span> and aXb").
Proof.
  split; [apply highlightText_total|].
  split; [apply highlightText_too_large|].
  split; [intros query; eexists; apply new_group_escaped|].
  split; [apply escapeRegExp_chars|].
  split; [intros c; each_ascii c; vm_compute; reflexivity|].
  vm_compute. reflexivity.
Qed.

(** ** More on language sniffing *)

(** X25: The language is always one of the five the highlighter is given. *)
Theorem detectLanguage_range (code : string) :
  detectLanguage code ∈ ["bash"; "json"; "markdown"; "javascript"; "python"].
Proof.
  unfold detectLanguage.
  repeat match goal with
         | |- context [if ?b then _ else _] => destruct b
         end; set_solver.
Qed.

Lemma includes_context (a code b sub : string) :
  JS.includes code sub = true -> JS.includes (a +:+ code +:+ b) sub = true.
Proof.
  intros H. apply includes_split in H as (x & y & ->).
  replace (a +:+ (x +:+ sub +:+ y) +:+ b) with ((a +:+ x) +:+ sub +:+ (y +:+ b))
    by (by rewrite !append_assoc).
  apply includes_intro.
Qed.

Lemma detectLanguage_shell (code : string) :
  Sniff.matches Sniff.ShellMarkers code = true -> detectLanguage code = "bash".
Proof.
  unfold detectLanguage. cbn [Sniff.matches Sniff.any existsb].
  repeat (match goal with
          | |- context [JS.includes code ?p] => destruct (JS.includes code p)
          end; cbn [orb andb]); intros H; first [reflexivity | discriminate H].
Qed.

(** X26: A snippet that holds a shell marker stays "bash" whatever text is put
    before and after it. *)
Theorem detectLanguage_shell_in_context (a code b : string) :
  Sniff.matches Sniff.ShellMarkers code = true ->
  detectLanguage (a +:+ code +:+ b) = "bash".
Proof.
  intros H. apply detectLanguage_shell.
  unfold Sniff.matches, Sniff.any in *. apply existsb_exists in H as (pat & Hin & Hp).
  apply existsb_exists. exists pat. split; [done|]. by apply includes_context.
Qed.

Lemma detectLanguage_shell_in_context_witness :
  detectLanguage ("{" +:+ JS.quoted "hooks" +:+ ": " +:+ "git status" +:+ "}") = "bash".
Proof.
  apply (detectLanguage_shell_in_context ("{" +:+ JS.quoted "hooks" +:+ ": ") "git status" "}").
  reflexivity.
Defined.

(** ** The expression built for a query *)

(** X2: For a query of at most 32767 characters the expression that
    [highlightText] constructs from the escaped query is accepted by the
    constructor and by the compiler, and it matches at a position exactly
    when the text there starts with the query up to the case of letters;
    it then covers as many characters as the query has and captures them
    as group 1.  No character of the query acts as an operator. *)
Theorem escaped_query_matches_literally (q : string) :
  String.length q <= RegExp.kMaxCPOffset ->
  exists re,
    RegExp.new ("(" +:+ escapeRegExp q +:+ ")") "gi" = Normal re /\
    RegExp.compile re = Normal re /\
    forall p s,
      RegExp.matchAt re p s =
      if ciPrefix q s
      then Some (String.length q, {[1 := JS.substring0 (String.length q) s]})
      else None.
Proof.
  intros Hlen. exists (queryRegExp q). split; [apply new_group_escaped|].
  split; [by apply compile_query|]. intros p s. apply matchAt_query.
Qed.

Lemma escaped_query_matches_literally_witness :
  exists re,
    RegExp.new ("(" +:+ escapeRegExp "a.b*c" +:+ ")") "gi" = Normal re /\
    RegExp.compile re = Normal re /\
    forall p s,
      RegExp.matchAt re p s =
      if ciPrefix "a.b*c" s
      then Some (String.length "a.b*c", {[1 := JS.substring0 (String.length "a.b*c") s]})
      else None.
Proof.
  apply (escaped_query_matches_literally "a.b*c").
  apply length_le_limit. vm_compute. reflexivity.
Defined.



(** C8: the if-chain of [detectLanguage] is the first-match evaluation of
    the rules in the order shell, JSON, frontmatter, generic keywords,
    scripting keywords, default shell; the input [echo '{"hooks": {}}']
    matches both the shell rule and the JSON rule and yields "bash". *)
Theorem detectLanguage_priority :
  (forall code, detectLanguage code = Sniff.sniff code) /\
  Sniff.matches Sniff.ShellMarkers Sniff.echoHooks = true /\
  Sniff.matches Sniff.JsonShape Sniff.echoHooks = true /\
  detectLanguage Sniff.echoHooks = "bash" /\
  detectLanguage Sniff.echoHooks <> "json".
Proof.
  split.
  - intros code. unfold detectLanguage, Sniff.sniff, Sniff.priority.
    cbn [Sniff.firstMatch Sniff.matches Sniff.any existsb Sniff.language].
    repeat (match goal with
            | |- context [JS.includes code ?p] => destruct (JS.includes code p)
            end; cbn [orb andb]); reflexivity.
  - repeat split; try reflexivity. vm_compute. discriminate.
Qed.



